(** * A shallow embedding of matrix_calc: the matrix with its running
    checksum (src/matrix.rs), the operation parser and its [Display]
    (src/operations.rs), and the parser of the earlier program in
    src/main.rs. *)

From Stdlib Require Import ZArith QArith Qcanon String Ascii Lia.
From stdpp Require Import base list strings.

(* ------------------------------------------------------------------ *)
(** ** Numbers *)

(** [fraction::Fraction] is [GenericFraction<u64>]: a sign and a reduced
    [u64] numerator and denominator, or an infinity or NaN. This exact model
    keeps only the value of each fraction, as a canonical rational [Qc]
    with Leibniz equality as its [==]. That value is what the crate
    computes only while no [u64] operation overflows. The module [U64]
    below embeds the bounded fractions, with the panics of a debug build
    and the wrap-around of a release build, and the claims that depend on
    the bounds are stated over it. [operate_refines] and
    [insert_row_refines] prove that every debug run of [U64] that does not
    panic ends with the values this model computes. *)
Abbreviation Fraction := Qc.

Definition frac_of_Z (z : Z) : Fraction := Q2Qc (inject_Z z).

(** [Fraction::from(i as u64)] and [Fraction::from(i as f64)] for an index
    [i]: both are [i] exactly, as every index of an allocatable [Vec] is
    below 2^53. *)
Definition usize_frac (n : nat) : Fraction := frac_of_Z (Z.of_nat n).

(** [fn calc_checksum(x, y, n) -> Fraction { (x + y) * *n }] *)
Definition calc_checksum (x y n : Fraction) : Fraction := ((x + y) * n)%Qc.

(* ------------------------------------------------------------------ *)
(** ** Results, panics and the overflow profile *)

(** A Rust call either returns [Ok], returns [Err] or panics. *)
Inductive outcome (T E : Type) : Type :=
| Ok (t : T)
| Err (e : E)
| Panic.
Arguments Ok {T E} t.
Arguments Err {T E} e.
Arguments Panic {T E}.

Definition obind {T U E} (r : outcome T E) (k : T -> outcome U E) : outcome U E :=
  match r with
  | Ok t => k t
  | Err e => Err e
  | Panic => Panic
  end.

Notation "'let?' x ':=' r 'in' k" := (obind r (fun x => k))
  (at level 200, x name, r at level 100, k at level 200).

(** Indexing a [Vec] with [v[i]] panics out of range. *)
Definition vindex {A E} (l : list A) (i : nat) : outcome A E :=
  match l !! i with
  | Some a => Ok a
  | None => Panic
  end.

(** [Vec::swap] panics when either index is out of range. *)
Definition vec_swap {A E} (l : list A) (a b : nat) : outcome (list A) E :=
  match l !! a, l !! b with
  | Some x, Some y => Ok (<[b := x]> (<[a := y]> l))
  | _, _ => Panic
  end.

(** [usize] subtraction panics on underflow in a debug build and wraps
    modulo 2^64 in a release build. *)
Inductive profile := Debug | Release.

Definition usize_sub {E} (prof : profile) (a b : nat) : outcome Z E :=
  if b <=? a then Ok (Z.of_nat (a - b))
  else match prof with
       | Debug => Panic
       | Release => Ok ((Z.of_nat a - Z.of_nat b) mod 2 ^ 64)%Z
       end.

(* ------------------------------------------------------------------ *)
(** ** The matrix (src/matrix.rs) *)

Record Matrix := mkMatrix {
  elements : list (list Fraction);
  checksum : Fraction;
}.

(** The [Err] strings of matrix.rs, one constructor per [format!]. *)
Inductive MatrixError :=
(** ["Invalid row length. Expected: {}, Got: {} when inserting: {:?}"] *)
| InvalidRowLength (expected got : nat) (row : list Fraction)
(** ["Invalid row. Matrix max row index is {}, Got: {}."] *)
| InvalidRow (max_index : Z) (got : nat)
(** ["Invalid column. Matrix max column index is {}, Got: {}."] *)
| InvalidColumn (max_index : Z) (got : nat)
(** ["Row with index {} is empty. Got column index: {}"] *)
| EmptyRow (row col : nat).

(** A [&mut self] method: it threads the matrix, and a mutation made before
    an [Err] is returned stays in place. *)
Definition M (A : Type) : Type := Matrix -> Matrix * outcome A MatrixError.

Definition ret {A} (a : A) : M A := fun m => (m, Ok a).

Definition bindM {A B} (c : M A) (k : A -> M B) : M B := fun m =>
  match c m with
  | (m', Ok a) => k a m'
  | (m', Err e) => (m', Err e)
  | (m', Panic) => (m', Panic)
  end.

Notation "'let*' x ':=' c 'in' k" := (bindM c (fun x => k))
  (at level 200, x name, c at level 100, k at level 200).

Definition lift {A} (r : outcome A MatrixError) : M A := fun m => (m, r).
Definition get_m : M Matrix := fun m => (m, Ok m).
Definition put_m (m' : Matrix) : M unit := fun _ => (m', Ok tt).

(** [for i in 0..n { body(i)? }] *)
Fixpoint for_each (l : list nat) (body : nat -> M unit) : M unit :=
  match l with
  | [] => ret tt
  | i :: l' => let* _ := body i in for_each l' body
  end.

Definition for_range (n : nat) (body : nat -> M unit) : M unit :=
  for_each (seq 0 n) body.

Definition new : Matrix := mkMatrix [] (frac_of_Z 0).

Definition height (m : Matrix) : nat := length (elements m).

(** [Some(self.elements.get(0)?.len())] *)
Definition width (m : Matrix) : option nat :=
  match elements m with
  | [] => None
  | r :: _ => Some (length r)
  end.

(** The checksum contribution of [row] placed at row index [x], from column
    [i] on, added to [acc]: the loop of [insert_row]. *)
Fixpoint row_checksum (x i : nat) (row : list Fraction) (acc : Fraction) : Fraction :=
  match row with
  | [] => acc
  | n :: rest =>
      row_checksum x (S i) rest (acc + calc_checksum (usize_frac x) (usize_frac i) n)%Qc
  end.

(** [enum Operations] (src/operations.rs). *)
Inductive Operations :=
| SwapRows (lhs rhs : nat)
| Multiply (row : nat) (scaler : Fraction)
| ReplaceWithMultiple (scaler : Fraction) (scaler_row target_row : nat)
| ShowHelp
| ClearScreen
| ShowMatrix
| ExitProgram.

Section WithProfile.

Variable prof : profile.

Definition insert_row (row : list Fraction) : M unit :=
  let* m := get_m in
  (* for (i, n) in row { self.checksum += calc_checksum(height, i, n); ... } *)
  let* _ := put_m (mkMatrix (elements m) (row_checksum (height m) 0 row (checksum m))) in
  let* m := get_m in
  match width m with
  | Some w =>
      if w =? length row then put_m (mkMatrix (elements m ++ [row]) (checksum m))
      else lift (Err (InvalidRowLength w (length row) row))
  | None => put_m (mkMatrix (elements m ++ [row]) (checksum m))
  end.

Definition check_xy (m : Matrix) (xy : nat * nat) : outcome unit MatrixError :=
  let '(x, y) := xy in
  if height m <=? x then
    let? mx := usize_sub prof (height m) 1 in Err (InvalidRow mx x)
  else
    match width m with
    | Some w =>
        if w <=? y then let? mx := usize_sub prof w 1 in Err (InvalidColumn mx y)
        else Ok tt
    | None => Err (EmptyRow x y)
    end.

Definition set (xy : nat * nat) (value : Fraction) : M unit :=
  let '(x, y) := xy in
  let* m := get_m in
  let* _ := lift (check_xy m (x, y)) in
  let* row := lift (vindex (elements m) x) in
  let* n := lift (vindex row y) in
  let diff := (calc_checksum (usize_frac x) (usize_frac y) n
               - calc_checksum (usize_frac x) (usize_frac y) value)%Qc in
  put_m (mkMatrix (<[x := <[y := value]> row]> (elements m)) (checksum m + diff)%Qc).

Definition get (xy : nat * nat) : M Fraction :=
  let '(x, y) := xy in
  let* m := get_m in
  let* _ := lift (check_xy m (x, y)) in
  let* row := lift (vindex (elements m) x) in
  lift (vindex row y).

(** [self.checksum += calc(q, i, self.elements[q][i]) - calc(p, i, self.elements[p][i])]:
    the body of the two checksum loops of the [SwapRows] arm, the first
    with [(p, q) = (lhs, rhs)], the second with [(p, q) = (rhs, lhs)]. *)
Definition swap_pass (p q i : nat) : M unit :=
  let* m := get_m in
  let* row_q := lift (vindex (elements m) q) in
  let* old := lift (vindex row_q i) in
  let* row_p := lift (vindex (elements m) p) in
  let* new := lift (vindex row_p i) in
  let diff := (calc_checksum (usize_frac q) (usize_frac i) old
               - calc_checksum (usize_frac p) (usize_frac i) new)%Qc in
  put_m (mkMatrix (elements m) (checksum m + diff)%Qc).

Definition row_index_error (m : Matrix) (r : nat) : M unit :=
  let* mx := lift (usize_sub prof (height m) 1) in
  lift (Err (InvalidRow mx r)).

(** [Matrix::operate]. matrix.rs names the fields of [ReplaceWithMultiple]
    [from_row] and [to_row]; operations.rs names them [scaler_row] and
    [target_row]. The arms matrix.rs leaves out (the session-control
    variants) do nothing, like its [ShowHelp] arm. *)
Definition operate (op : Operations) : M unit :=
  match op with
  | SwapRows lhs rhs =>
      let* m := get_m in
      if height m <=? lhs then row_index_error m lhs
      else if height m <=? rhs then row_index_error m rhs
      else
        let* els := lift (vec_swap (elements m) lhs rhs) in
        let* _ := put_m (mkMatrix els (checksum m)) in
        let* m := get_m in
        let* row_l := lift (vindex (elements m) lhs) in
        let* _ := for_range (length row_l) (swap_pass lhs rhs) in
        let* m := get_m in
        let* row_r := lift (vindex (elements m) rhs) in
        for_range (length row_r) (swap_pass rhs lhs)
  | Multiply row scaler =>
      let* m := get_m in
      let* r := lift (vindex (elements m) row) in
      for_range (length r) (fun i =>
        let* v := get (row, i) in
        set (row, i) (v * scaler)%Qc)
  | ReplaceWithMultiple scaler from_row to_row =>
      let* m := get_m in
      let* fr := lift (vindex (elements m) from_row) in
      let scaler_row := map (fun n => n * scaler)%Qc fr in
      let* tr := lift (vindex (elements m) to_row) in
      for_range (length tr) (fun i =>
        let* v := get (to_row, i) in
        let* s := lift (vindex scaler_row i) in
        set (to_row, i) (v + s)%Qc)
  | ShowHelp | ClearScreen | ShowMatrix | ExitProgram => ret tt
  end.

End WithProfile.

(** The checksum recomputed from the cells: the sum over every cell
    [(x, y, v)] of [(x + y) * v]. *)
Fixpoint row_sum (x y : nat) (row : list Fraction) : Fraction :=
  match row with
  | [] => frac_of_Z 0
  | v :: rest => (calc_checksum (usize_frac x) (usize_frac y) v + row_sum x (S y) rest)%Qc
  end.

Fixpoint cells_sum (x : nat) (els : list (list Fraction)) : Fraction :=
  match els with
  | [] => frac_of_Z 0
  | row :: rest => (row_sum x 0 row + cells_sum (S x) rest)%Qc
  end.

Definition consistent (m : Matrix) : Prop := checksum m = cells_sum 0 (elements m).

(** Every row has the length of the first one. *)
Definition rectangular (els : list (list Fraction)) : bool :=
  match els with
  | [] => true
  | r0 :: rs => forallb (fun r => length r =? length r0) rs
  end.

(* ------------------------------------------------------------------ *)
(** ** The operation parser (src/operations.rs) *)

(** Strings are modelled as ASCII strings; [to_lowercase] on them maps
    [A]..[Z] to [a]..[z] and leaves every other character alone. *)
Definition lower_char (c : ascii) : ascii :=
  let n := nat_of_ascii c in
  if (65 <=? n) && (n <=? 90) then ascii_of_nat (n + 32) else c.

Fixpoint to_lowercase (s : string) : string :=
  match s with
  | EmptyString => EmptyString
  | String c rest => String (lower_char c) (to_lowercase rest)
  end.

(** [s.split_once(c)]: the text before and after the first [c]. *)
Fixpoint split_once (c : ascii) (s : string) : option (string * string) :=
  match s with
  | EmptyString => None
  | String ch rest =>
      if Ascii.eqb ch c then Some (EmptyString, rest)
      else match split_once c rest with
           | Some (a, b) => Some (String ch a, b)
           | None => None
           end
  end.

(** [.chars().filter(|c| *c != 'r').collect::<String>()] *)
Fixpoint remove_r (s : string) : string :=
  match s with
  | EmptyString => EmptyString
  | String c rest => if Ascii.eqb c "r"%char then remove_r rest else String c (remove_r rest)
  end.

(** The value of a non-empty string of decimal digits. *)
Fixpoint digits_value (s : string) (acc : N) : option N :=
  match s with
  | EmptyString => Some acc
  | String c rest =>
      let d := nat_of_ascii c in
      if (48 <=? d) && (d <=? 57) then digits_value rest (acc * 10 + N.of_nat (d - 48))%N
      else None
  end.

Definition digits (s : string) : option N :=
  match s with
  | EmptyString => None
  | _ => digits_value s 0%N
  end.

(** [str::parse::<usize>()]: an optional [+] then decimal digits, below
    2^64. *)
Definition parse_usize (s : string) : option nat :=
  let body := match s with
              | String "+"%char (String _ _ as rest) => rest
              | _ => s
              end in
  match digits body with
  | Some n => if (n <? 2 ^ 64)%N then Some (N.to_nat n) else None
  | None => None
  end.

(** A row index token: [tok.to_lowercase().chars().filter(|c| *c != 'r')
    .collect::<String>()] and then [.parse::<usize>()]. *)
Definition strip_r (tok : string) : string := remove_r (to_lowercase tok).

Definition parse_index (tok : string) : option nat := parse_usize (strip_r tok).

(** Modelled from the spec: [Fraction::from_str] of the [fraction] crate,
    the rational-number library the parser delegates to ("accepts integer,
    decimal, or fraction textual forms"): an optional sign, then digits,
    [digits/digits] or [digits.digits]. The library's source is not part
    of this repository, and this model departs from it outside the forms
    above. It refuses some texts the crate accepts: a zero denominator
    such as ["1/0"], and a decimal point with no digits after it such as
    ["1."]. It accepts numbers that do not fit in [u64], which the crate
    refuses. *)
Definition fraction_from_str (s : string) : option Fraction :=
  let '(neg, body) := match s with
                      | String "-"%char rest => (true, rest)
                      | String "+"%char rest => (false, rest)
                      | _ => (false, s)
                      end in
  let signed (n : N) := if neg then Z.opp (Z.of_N n) else Z.of_N n in
  match split_once "/"%char body with
  | Some (num, den) =>
      match digits num, digits den with
      | Some a, Some (Npos b) => Some (Q2Qc (signed a # b))
      | _, _ => None
      end
  | None =>
      match split_once "."%char body with
      | Some (ip, fp) =>
          match digits ip, digits fp with
          | Some a, Some b =>
              Some (Q2Qc (signed (a * 10 ^ N.of_nat (String.length fp) + b)%N
                          # Pos.pow 10 (Pos.of_nat (String.length fp))))
          | _, _ => None
          end
      | None =>
          match digits body with
          | Some a => Some (Q2Qc (inject_Z (signed a)))
          | None => None
          end
      end
  end.

(** The error [e] that [try_from] prints after [Failed to parse] for a
    scaler that [Fraction::from_str] refuses: the [Display] text of the
    library's [ParseError] for an integer part that does not parse. The
    crate prints another text for the other causes of the error, which
    this model does not tell apart. *)
Definition fraction_error_text : string := "Could not parse integer".

Definition dq : string := String "034"%char EmptyString.

Definition is_bare_keyword (s : string) : bool :=
  existsb (String.eqb s) ["h"; "help"; "c"; "clear"; "q"; "exit"; "show"]%string.

(** The first [match] of [try_from]: split off the operation keyword. *)
Definition split_op (value : string) : outcome (string * string) string :=
  match split_once " "%char value with
  | Some splits => Ok splits
  | None =>
      let value_lower := to_lowercase value in
      if is_bare_keyword value_lower then Ok (value, EmptyString)
      else Err (dq ++ value_lower ++ dq ++ " is not a complete instruction.")%string
  end.

(** The second [match] of [try_from], on [op.to_lowercase()]. *)
Definition parse_op (op rest : string) : outcome Operations string :=
  let op_l := to_lowercase op in
  if String.eqb op_l "h" || String.eqb op_l "help" then Ok ShowHelp
  else if String.eqb op_l "c" || String.eqb op_l "clear" then Ok ClearScreen
  else if String.eqb op_l "show" then Ok ShowMatrix
  else if String.eqb op_l "q" || String.eqb op_l "exit" then Ok ExitProgram
  else if String.eqb op_l "s" then
    match split_once " "%char rest with
    | None =>
        Err ("Expected two space separated row indices. Got: " ++ dq ++ rest ++ dq)%string
    | Some (lhs, rhs) =>
        let lhs := strip_r lhs in
        let rhs := strip_r rhs in
        match parse_usize lhs with
        | None => Err ("Failed to parse " ++ dq ++ lhs ++ dq ++ " to `usize`")%string
        | Some l =>
            match parse_usize rhs with
            | None => Err ("Failed to parse " ++ dq ++ rhs ++ dq ++ " to `usize`")%string
            | Some r => Ok (SwapRows l r)
            end
        end
    end
  else if String.eqb op_l "m" then
    match split_once " "%char rest with
    | None =>
        Err ("Expected a scaler and a row index separated by a space. Got: "
             ++ dq ++ rest ++ dq)%string
    | Some (scaler, row) =>
        match fraction_from_str scaler with
        | None =>
            Err ("Failed to parse " ++ dq ++ scaler ++ dq ++ ". " ++ fraction_error_text)%string
        | Some k =>
            match parse_index row with
            | None => Err ("Failed to parse " ++ dq ++ row ++ dq ++ ".")%string
            | Some r => Ok (Multiply r k)
            end
        end
    end
  else if String.eqb op_l "r" then
    match split_once " "%char rest with
    | None =>
        Err ("Expected a scaler and two row indices separated by spaces. Got: "
             ++ dq ++ rest ++ dq)%string
    | Some (scaler, rows) =>
        match split_once " "%char rows with
        | None =>
            Err ("Expected two row indices separated by a space. Got: "
                 ++ dq ++ rows ++ dq)%string
        | Some (scaler_row, target_row) =>
            match fraction_from_str scaler with
            | None =>
                Err ("Failed to parse " ++ dq ++ scaler ++ dq ++ ". "
                     ++ fraction_error_text)%string
            | Some k =>
                match parse_index scaler_row with
                | None => Err ("Failed to parse " ++ dq ++ scaler_row ++ dq ++ ".")%string
                | Some sr =>
                    match parse_index target_row with
                    | None => Err ("Failed to parse " ++ dq ++ target_row ++ dq ++ ".")%string
                    | Some tr => Ok (ReplaceWithMultiple k sr tr)
                    end
                end
            end
        end
    end
  else Err (dq ++ op ++ dq ++ " is not a valid operation.")%string.

(** [impl TryFrom<&str> for Operations]. *)
Definition try_from (value : string) : outcome Operations string :=
  match split_op value with
  | Ok (op, rest) => parse_op op rest
  | Err e => Err e
  | Panic => Panic
  end.

(* ------------------------------------------------------------------ *)
(** ** Auxiliary definitions for the proofs *)

Global Instance Qc_inhabited : Inhabited Qc := populate 0%Qc.
Global Instance Qc_eq_decision : EqDecision Qc := Qc_eq_dec.
Global Instance Matrix_eq_decision : EqDecision Matrix.
Proof. solve_decision. Defined.
Global Instance MatrixError_eq_decision : EqDecision MatrixError.
Proof. solve_decision. Defined.
Global Instance outcome_eq_decision {T E} `{EqDecision T, EqDecision E} :
  EqDecision (outcome T E).
Proof. solve_decision. Defined.
Global Instance Operations_eq_decision : EqDecision Operations.
Proof. solve_decision. Defined.

(** Integer rows and matrices, for concrete inputs. *)
Definition zrow (l : list Z) : list Fraction := map frac_of_Z l.
Definition zmat (l : list (list Z)) (c : Z) : Matrix := mkMatrix (map zrow l) (frac_of_Z c).

(** Decide an equation between closed values by evaluation. *)
Ltac eval_eq := apply (bool_decide_eq_true_1 (_ = _)); vm_compute; reflexivity.

(** A string of decimal digits only. *)
Definition is_digit (c : ascii) : bool :=
  let d := nat_of_ascii c in (48 <=? d) && (d <=? 57).

Fixpoint all_digits (s : string) : bool :=
  match s with
  | EmptyString => true
  | String c rest => is_digit c && all_digits rest
  end.

(** The words the second [match] of [try_from] knows. *)
Definition op_keywords : list string :=
  ["h"; "help"; "c"; "clear"; "show"; "q"; "exit"; "s"; "m"; "r"]%string.

(* ------------------------------------------------------------------ *)
(** ** The rest of matrix.rs *)

Definition matrix_eq (a b : Matrix) : list string * bool :=
  if decide (checksum a = checksum b) then ([], bool_decide (elements a = elements b))
  else (["Different checksums!"%string], false).

(* ------------------------------------------------------------------ *)
(** ** [Display] of [usize] and of [Operations] (src/operations.rs) *)

Definition digit_char (d : N) : ascii := ascii_of_N (48 + d).

(** The decimal digits of [n] written in front of [acc], at most [fuel] of
    them. *)
Fixpoint decimal (fuel : nat) (n : N) (acc : string) : string :=
  match fuel with
  | O => acc
  | S f =>
      let acc' := String (digit_char (n mod 10)) acc in
      if (n <? 10)%N then acc' else decimal f (n / 10) acc'
  end.

(** [usize]'s [Display]: 20 digits hold every [usize]. *)
Definition usize_to_string (n : nat) : string := decimal 20 (N.of_nat n) EmptyString.

Section DisplayOp.
(** The [Display] of [fraction::Fraction], a library type, is a parameter. *)
Variable fmt_fraction : Fraction -> string.

(** [impl fmt::Display for Operations]. *)
Definition display_op (op : Operations) : string :=
  match op with
  | SwapRows lhs rhs => "R" ++ usize_to_string lhs ++ " <-> R" ++ usize_to_string rhs
  | Multiply row scaler =>
      fmt_fraction scaler ++ " * R" ++ usize_to_string row ++ " -> R" ++ usize_to_string row
  | ReplaceWithMultiple scaler scaler_row target_row =>
      fmt_fraction scaler ++ " * R" ++ usize_to_string scaler_row ++ " + R"
        ++ usize_to_string target_row ++ " -> R" ++ usize_to_string target_row
  | ShowHelp => "ShowHelp"
  | ClearScreen => "Clear Screen"
  | ShowMatrix => "Show Matrix"
  | ExitProgram => "Exit Program"
  end%string.

End DisplayOp.

(* ------------------------------------------------------------------ *)
(** ** The parser of src/main.rs *)

(** src/main.rs is the earlier, [f64] version of the program, with its own
    [Operations] and parser. The [f64] type and the standard library's
    [str::parse::<f64>] and [f64] [Display] are parameters. *)
Module MainRs.

Inductive Operations (F : Type) :=
| ExchangeRows (lhs rhs : nat)
| Multiply (row : nat) (scaler : F)
| ReplaceWithMultiple (scaler : F) (from_row to_row : nat).
Arguments ExchangeRows {F} lhs rhs.
Arguments Multiply {F} row scaler.
Arguments ReplaceWithMultiple {F} scaler from_row to_row.

Section Parser.
Context {F : Type}.
Variable parse_f64 : string -> option F.
Variable fmt_f64 : F -> string.

(** [impl TryFrom<&str> for Operations]. The keywords are matched
    case-sensitively; the second row index of [R] is parsed from the
    [from_row] token, as the source does. *)
Definition try_from (value : string) : outcome (Operations F) string :=
  match split_once " "%char value with
  | None => Err (dq ++ value ++ dq ++ " is not a valid instruction.")%string
  | Some (op, rest) =>
      if String.eqb op "E" then
        match split_once " "%char rest with
        | None =>
            Err ("Expected two space separated row indices. Got: " ++ dq ++ rest ++ dq)%string
        | Some (lhs, rhs) =>
            let lhs := strip_r lhs in
            let rhs := strip_r rhs in
            match parse_usize lhs with
            | None => Err ("Failed to parse " ++ dq ++ lhs ++ dq ++ " to `usize`")%string
            | Some l =>
                match parse_usize rhs with
                | None => Err ("Failed to parse " ++ dq ++ rhs ++ dq ++ " to `usize`")%string
                | Some r => Ok (ExchangeRows l r)
                end
            end
        end
      else if String.eqb op "M" then
        match split_once " "%char rest with
        | None =>
            Err ("Expected a scaler and a row index separated by a space. Got: "
                 ++ dq ++ rest ++ dq)%string
        | Some (scaler, row) =>
            match parse_f64 scaler with
            | None => Err ("Failed to parse " ++ dq ++ scaler ++ dq ++ ".")%string
            | Some k =>
                match parse_index row with
                | None => Err ("Failed to parse " ++ dq ++ row ++ dq ++ ".")%string
                | Some r => Ok (Multiply r k)
                end
            end
        end
      else if String.eqb op "R" then
        match split_once " "%char rest with
        | None =>
            Err ("Expected a scaler and two row indices separated by spaces. Got: "
                 ++ dq ++ rest ++ dq)%string
        | Some (scaler, rows) =>
            match split_once " "%char rows with
            | None =>
                Err ("Expected two row indices separated by a space. Got: "
                     ++ dq ++ rows ++ dq)%string
            | Some (from_row, to_row) =>
                match parse_f64 scaler with
                | None => Err ("Failed to parse " ++ dq ++ scaler ++ dq ++ ".")%string
                | Some k =>
                    match parse_index from_row with
                    | None => Err ("Failed to parse " ++ dq ++ from_row ++ dq ++ ".")%string
                    | Some f =>
                        match parse_index from_row with
                        | None => Err ("Failed to parse " ++ dq ++ to_row ++ dq ++ ".")%string
                        | Some t => Ok (ReplaceWithMultiple k f t)
                        end
                    end
                end
            end
        end
      else Err (op ++ " is not a valid operation.")%string
  end.

(** [impl fmt::Display for Operations]. *)
Definition display_op (op : Operations F) : string :=
  match op with
  | ExchangeRows lhs rhs => "E R" ++ usize_to_string lhs ++ " R" ++ usize_to_string rhs
  | Multiply row scaler =>
      fmt_f64 scaler ++ " * R" ++ usize_to_string row ++ " -> R" ++ usize_to_string row
  | ReplaceWithMultiple scaler from_row to_row =>
      fmt_f64 scaler ++ " * R" ++ usize_to_string from_row ++ " + R"
        ++ usize_to_string to_row ++ " -> R" ++ usize_to_string to_row
  end%string.

End Parser.

End MainRs.

(* ------------------------------------------------------------------ *)
(** ** [fraction::Fraction] with its [u64] parts *)

(** [fraction::Fraction] is [GenericFraction<u64>]: a sign and a
    [num_rational::Ratio<u64>], or an infinity with a sign, or NaN. The
    [u64] [+], [-] and [*] inside its arithmetic panic on overflow in a
    debug build and wrap modulo 2^64 in a release build. This module embeds
    that arithmetic and, over it, the parts of src/matrix.rs that compute
    with fractions. *)
Module U64.

Local Open Scope Z_scope.

Definition modulus : Z := 2 ^ 64.

(** [u64::MAX] *)
Definition MAX : Z := modulus - 1.

(** The result of a [u64] [+], [-] or [*] whose exact value is [z]. *)
Definition wrap {E} (prof : profile) (z : Z) : outcome Z E :=
  if (0 <=? z) && (z <? modulus) then Ok z
  else match prof with
       | Debug => Panic
       | Release => Ok (z mod modulus)
       end.

(** [u64] division: it panics on a zero divisor in both builds. *)
Definition div {E} (a b : Z) : outcome Z E := if b =? 0 then Panic else Ok (a / b).

(** [num_rational::Ratio<u64>]. *)
Record Ratio := mkRatio { numer : Z; denom : Z }.

(** [Ratio::new(n, d)], that is [reduce]: it panics on a zero denominator,
    maps [0/d] to [0/1] and [d/d] to [1/1], and divides both parts by their
    gcd otherwise. *)
Definition ratio_new {E} (n d : Z) : outcome Ratio E :=
  if d =? 0 then Panic
  else if n =? 0 then Ok (mkRatio 0 1)
  else if n =? d then Ok (mkRatio 1 1)
  else let g := Z.gcd n d in Ok (mkRatio (n / g) (d / g)).

(** [a.lcm(&b)] of num-integer for [u64]: [a * (b / a.gcd(&b))], and [0]
    when both are [0]. *)
Definition lcm {E} (prof : profile) (a b : Z) : outcome Z E :=
  if (a =? 0) && (b =? 0) then Ok 0 else wrap prof (a * (b / Z.gcd a b)).

(** [Ratio]'s [+] and [-] ([op] is the [u64] operation): equal
    denominators are kept, otherwise both numerators are brought to the
    lcm of the denominators. *)
Definition ratio_arith {E} (prof : profile) (op : Z -> Z -> Z) (a b : Ratio) : outcome Ratio E :=
  if denom a =? denom b then
    let? n := wrap prof (op (numer a) (numer b)) in ratio_new n (denom b)
  else
    let? l := lcm prof (denom a) (denom b) in
    let? qa := div l (denom a) in
    let? na := wrap prof (numer a * qa) in
    let? qb := div l (denom b) in
    let? nb := wrap prof (numer b * qb) in
    let? n := wrap prof (op na nb) in
    ratio_new n l.

Definition ratio_add {E} (prof : profile) : Ratio -> Ratio -> outcome Ratio E :=
  ratio_arith prof Z.add.

Definition ratio_sub {E} (prof : profile) : Ratio -> Ratio -> outcome Ratio E :=
  ratio_arith prof Z.sub.

(** [Ratio]'s [*]: the cross gcds are divided out first. *)
Definition ratio_mul {E} (prof : profile) (a b : Ratio) : outcome Ratio E :=
  let gad := Z.gcd (numer a) (denom b) in
  let gbc := Z.gcd (denom a) (numer b) in
  let? x := div (numer a) gad in
  let? y := div (numer b) gbc in
  let? n := wrap prof (x * y) in
  let? x' := div (denom a) gbc in
  let? y' := div (denom b) gad in
  let? d := wrap prof (x' * y') in
  ratio_new n d.

(** [l < r] on [Ratio]: num-rational compares the two values exactly,
    without overflow. *)
Definition ratio_lt (a b : Ratio) : bool := numer a * denom b <? numer b * denom a.

Inductive Sign := Plus | Minus.

Definition sign_eqb (s t : Sign) : bool :=
  match s, t with
  | Plus, Plus | Minus, Minus => true
  | _, _ => false
  end.

Definition sign_mul (s t : Sign) : Sign := if sign_eqb s t then Plus else Minus.

Definition sign_neg (s : Sign) : Sign := match s with Plus => Minus | Minus => Plus end.

(** [GenericFraction<u64>]. *)
Inductive Fraction :=
| Rational (s : Sign) (r : Ratio)
| Infinity (s : Sign)
| NaN.

(** [Fraction::from(n)] for [n : u64]. *)
Definition from_u64 (n : Z) : Fraction := Rational Plus (mkRatio n 1).

(** [a + b]: magnitudes of equal sign are added, otherwise the smaller
    is subtracted from the larger. NaN and the infinities follow IEEE 754;
    no theorem here depends on them. *)
Definition add {E} (prof : profile) (a b : Fraction) : outcome Fraction E :=
  match a, b with
  | Rational ls l, Rational rs r =>
      match ls, rs with
      | Plus, Plus => let? x := ratio_add prof l r in Ok (Rational Plus x)
      | Minus, Minus => let? x := ratio_add prof l r in Ok (Rational Minus x)
      | Plus, Minus =>
          if ratio_lt l r then let? x := ratio_sub prof r l in Ok (Rational Minus x)
          else let? x := ratio_sub prof l r in Ok (Rational Plus x)
      | Minus, Plus =>
          if ratio_lt r l then let? x := ratio_sub prof l r in Ok (Rational Minus x)
          else let? x := ratio_sub prof r l in Ok (Rational Plus x)
      end
  | NaN, _ | _, NaN => Ok NaN
  | Infinity s, Infinity t => Ok (if sign_eqb s t then Infinity s else NaN)
  | Infinity s, Rational _ _ | Rational _ _, Infinity s => Ok (Infinity s)
  end.

(** [a - b]. *)
Definition sub {E} (prof : profile) (a b : Fraction) : outcome Fraction E :=
  match a, b with
  | Rational ls l, Rational rs r =>
      match ls, rs with
      | Plus, Minus => let? x := ratio_add prof l r in Ok (Rational Plus x)
      | Minus, Plus => let? x := ratio_add prof l r in Ok (Rational Minus x)
      | Plus, Plus =>
          if ratio_lt l r then let? x := ratio_sub prof r l in Ok (Rational Minus x)
          else let? x := ratio_sub prof l r in Ok (Rational Plus x)
      | Minus, Minus =>
          if ratio_lt l r then let? x := ratio_sub prof r l in Ok (Rational Plus x)
          else let? x := ratio_sub prof l r in Ok (Rational Minus x)
      end
  | NaN, _ | _, NaN => Ok NaN
  | Infinity s, Infinity t => Ok (if sign_eqb s t then NaN else Infinity s)
  | Infinity s, Rational _ _ => Ok (Infinity s)
  | Rational _ _, Infinity s => Ok (Infinity (sign_neg s))
  end.

(** [a * b]. *)
Definition mul {E} (prof : profile) (a b : Fraction) : outcome Fraction E :=
  match a, b with
  | Rational ls l, Rational rs r =>
      let? x := ratio_mul prof l r in Ok (Rational (sign_mul ls rs) x)
  | NaN, _ | _, NaN => Ok NaN
  | Infinity s, Infinity t => Ok (Infinity (sign_mul s t))
  | Infinity s, Rational t r | Rational t r, Infinity s =>
      Ok (if numer r =? 0 then NaN else Infinity (sign_mul s t))
  end.

(** The value of a finite fraction: both parts are [u64] and the
    denominator is not zero. [value] is only read on finite fractions. *)
Definition ratio_ok (r : Ratio) : bool :=
  (0 <=? numer r) && (numer r <? modulus) && (0 <? denom r) && (denom r <? modulus).

Definition finite (a : Fraction) : bool :=
  match a with
  | Rational _ r => ratio_ok r
  | _ => false
  end.

Definition ratio_value (r : Ratio) : Q := numer r # Z.to_pos (denom r).

Definition value (a : Fraction) : Q :=
  match a with
  | Rational Plus r => ratio_value r
  | Rational Minus r => - ratio_value r
  | _ => 0
  end.

Local Close Scope Z_scope.

(** *** The matrix over these fractions (src/matrix.rs) *)

Record Matrix := mkMatrix {
  elements : list (list Fraction);
  checksum : Fraction;
}.

Inductive MatrixError :=
| InvalidRowLength (expected got : nat) (row : list Fraction)
| InvalidRow (max_index : Z) (got : nat)
| InvalidColumn (max_index : Z) (got : nat)
| EmptyRow (row col : nat).

Definition M (A : Type) : Type := Matrix -> Matrix * outcome A MatrixError.

Definition ret {A} (a : A) : M A := fun m => (m, Ok a).

Definition bindM {A B} (c : M A) (k : A -> M B) : M B := fun m =>
  match c m with
  | (m', Ok a) => k a m'
  | (m', Err e) => (m', Err e)
  | (m', Panic) => (m', Panic)
  end.

#[warnings="-notation-overridden"]
Local Notation "'let*' x ':=' c 'in' k" := (bindM c (fun x => k))
  (at level 200, x name, c at level 100, k at level 200).

Definition lift {A} (r : outcome A MatrixError) : M A := fun m => (m, r).
Definition get_m : M Matrix := fun m => (m, Ok m).
Definition put_m (m' : Matrix) : M unit := fun _ => (m', Ok tt).

Fixpoint for_each (l : list nat) (body : nat -> M unit) : M unit :=
  match l with
  | [] => ret tt
  | i :: l' => let* _ := body i in for_each l' body
  end.

Definition for_range (n : nat) (body : nat -> M unit) : M unit :=
  for_each (seq 0 n) body.

Definition new : Matrix := mkMatrix [] (from_u64 0).

Definition height (m : Matrix) : nat := length (elements m).

Definition width (m : Matrix) : option nat :=
  match elements m with
  | [] => None
  | r :: _ => Some (length r)
  end.

Inductive Operations :=
| SwapRows (lhs rhs : nat)
| Multiply (row : nat) (scaler : Fraction)
| ReplaceWithMultiple (scaler : Fraction) (scaler_row target_row : nat)
| ShowHelp
| ClearScreen
| ShowMatrix
| ExitProgram.

(** [Fraction::from(i as f64)] is exactly [i] for [i] below 2^53, where
    [f64] holds every integer; [f64_exact] tells those indices apart. *)
Definition f64_exact (n : nat) : bool := (Z.of_nat n <? 2 ^ 53)%Z.

(** Every row index and column index of [m] is below 2^53. *)
Definition small (m : Matrix) : bool :=
  f64_exact (height m) && forallb (fun r => f64_exact (length r)) (elements m).

Section Ops.

(** [Fraction::from(i as f64)] for a [usize] [i]: it is left as a
    parameter, and the theorems assume only that it is exact below 2^53. *)
Variable from_f64 : nat -> Fraction.
Variable prof : profile.

Definition usize_u64 (n : nat) : Fraction := from_u64 (Z.of_nat n).

(** [calc_checksum(x, y, n)]: [(x + y) * *n]. *)
Definition calc_checksum (x y n : Fraction) : outcome Fraction MatrixError :=
  let? s := add prof x y in mul prof s n.

(** The loop of [insert_row]: [self.checksum += calc_checksum(height, i, n)]
    for each cell [n] at column [i]. *)
Fixpoint row_checksum (x i : nat) (row : list Fraction) (acc : Fraction)
    : outcome Fraction MatrixError :=
  match row with
  | [] => Ok acc
  | n :: rest =>
      let? d := calc_checksum (from_f64 x) (from_f64 i) n in
      let? acc := add prof acc d in
      row_checksum x (S i) rest acc
  end.

Definition insert_row (row : list Fraction) : M unit :=
  let* m := get_m in
  let* c := lift (row_checksum (height m) 0 row (checksum m)) in
  let* _ := put_m (mkMatrix (elements m) c) in
  let* m := get_m in
  match width m with
  | Some w =>
      if w =? length row then put_m (mkMatrix (elements m ++ [row]) (checksum m))
      else lift (Err (InvalidRowLength w (length row) row))
  | None => put_m (mkMatrix (elements m ++ [row]) (checksum m))
  end.

Definition check_xy (m : Matrix) (xy : nat * nat) : outcome unit MatrixError :=
  let '(x, y) := xy in
  if height m <=? x then
    let? mx := usize_sub prof (height m) 1 in Err (InvalidRow mx x)
  else
    match width m with
    | Some w =>
        if w <=? y then let? mx := usize_sub prof w 1 in Err (InvalidColumn mx y)
        else Ok tt
    | None => Err (EmptyRow x y)
    end.

(** [set]: after a panic the state is not observed, so the cell write and
    the checksum update are made together. *)
Definition set (xy : nat * nat) (value : Fraction) : M unit :=
  let '(x, y) := xy in
  let* m := get_m in
  let* _ := lift (check_xy m (x, y)) in
  let* row := lift (vindex (elements m) x) in
  let* n := lift (vindex row y) in
  let* a := lift (calc_checksum (usize_u64 x) (usize_u64 y) n) in
  let* b := lift (calc_checksum (from_f64 x) (from_f64 y) value) in
  let* diff := lift (sub prof a b) in
  let* c := lift (add prof (checksum m) diff) in
  put_m (mkMatrix (<[x := <[y := value]> row]> (elements m)) c).

Definition get (xy : nat * nat) : M Fraction :=
  let '(x, y) := xy in
  let* m := get_m in
  let* _ := lift (check_xy m (x, y)) in
  let* row := lift (vindex (elements m) x) in
  lift (vindex row y).

(** The body of the two checksum loops of the [SwapRows] arm. *)
Definition swap_pass (p q i : nat) : M unit :=
  let* m := get_m in
  let* row_q := lift (vindex (elements m) q) in
  let* old := lift (vindex row_q i) in
  let* row_p := lift (vindex (elements m) p) in
  let* new := lift (vindex row_p i) in
  let* a := lift (calc_checksum (usize_u64 q) (usize_u64 i) old) in
  let* b := lift (calc_checksum (from_f64 p) (from_f64 i) new) in
  let* diff := lift (sub prof a b) in
  let* c := lift (add prof (checksum m) diff) in
  put_m (mkMatrix (elements m) c).

(** [self.elements[from_row].iter().map(|n| n * scaler).collect()] *)
Fixpoint scale_row (row : list Fraction) (scaler : Fraction)
    : outcome (list Fraction) MatrixError :=
  match row with
  | [] => Ok []
  | n :: rest =>
      let? v := mul prof n scaler in
      let? vs := scale_row rest scaler in
      Ok (v :: vs)
  end.

Definition row_index_error (m : Matrix) (r : nat) : M unit :=
  let* mx := lift (usize_sub prof (height m) 1) in
  lift (Err (InvalidRow mx r)).

Definition operate (op : Operations) : M unit :=
  match op with
  | SwapRows lhs rhs =>
      let* m := get_m in
      if height m <=? lhs then row_index_error m lhs
      else if height m <=? rhs then row_index_error m rhs
      else
        let* els := lift (vec_swap (elements m) lhs rhs) in
        let* _ := put_m (mkMatrix els (checksum m)) in
        let* m := get_m in
        let* row_l := lift (vindex (elements m) lhs) in
        let* _ := for_range (length row_l) (swap_pass lhs rhs) in
        let* m := get_m in
        let* row_r := lift (vindex (elements m) rhs) in
        for_range (length row_r) (swap_pass rhs lhs)
  | Multiply row scaler =>
      let* m := get_m in
      let* r := lift (vindex (elements m) row) in
      for_range (length r) (fun i =>
        let* v := get (row, i) in
        let* w := lift (mul prof v scaler) in
        set (row, i) w)
  | ReplaceWithMultiple scaler from_row to_row =>
      let* m := get_m in
      let* fr := lift (vindex (elements m) from_row) in
      let* scaler_row := lift (scale_row fr scaler) in
      let* tr := lift (vindex (elements m) to_row) in
      for_range (length tr) (fun i =>
        let* v := get (to_row, i) in
        let* s := lift (vindex scaler_row i) in
        let* w := lift (add prof v s) in
        set (to_row, i) w)
  | ShowHelp | ClearScreen | ShowMatrix | ExitProgram => ret tt
  end.

End Ops.

(** Auxiliary definitions for the proofs. *)

(** Every cell is a finite fraction. *)
Definition cells_finite (els : list (list Fraction)) : bool := forallb (forallb finite) els.

#[export] Instance Fraction_inhabited : Inhabited Fraction := populate NaN.

(** [f 0 + ... + f (n - 1)] *)
Fixpoint qsum (n : nat) (f : nat -> Q) : Q :=
  match n with
  | O => 0%Q
  | S n' => (qsum n' f + f n')%Q
  end.

End U64.

(* ------------------------------------------------------------------ *)
(** ** The exact model as the value of the bounded one *)

(** The value of a fraction of [U64] as a [Fraction] of the exact model
    (0 for NaN and the infinities, which the refinement theorem excludes). *)
Definition abs_frac (f : U64.Fraction) : Fraction := Q2Qc (U64.value f).

Definition abs_matrix (m : U64.Matrix) : Matrix :=
  mkMatrix (map (map abs_frac) (U64.elements m)) (abs_frac (U64.checksum m)).

Definition abs_op (op : U64.Operations) : Operations :=
  match op with
  | U64.SwapRows a b => SwapRows a b
  | U64.Multiply r k => Multiply r (abs_frac k)
  | U64.ReplaceWithMultiple k f t => ReplaceWithMultiple (abs_frac k) f t
  | U64.ShowHelp => ShowHelp
  | U64.ClearScreen => ClearScreen
  | U64.ShowMatrix => ShowMatrix
  | U64.ExitProgram => ExitProgram
  end.

(** Every cell and the checksum are finite, and every index is below 2^53. *)
Definition finite_small (m : U64.Matrix) : bool :=
  U64.cells_finite (U64.elements m) && U64.finite (U64.checksum m) && U64.small m.

(** The scaler of an operation, if it has one, is finite. *)
Definition op_finite (op : U64.Operations) : bool :=
  match op with
  | U64.Multiply _ k | U64.ReplaceWithMultiple k _ _ => U64.finite k
  | _ => true
  end.

(* ================================================================== *)
(** * Proofs *)

(** ** Lists *)

Lemma swap_lookup {A} (l : list A) a b x y :
  l !! a = Some x -> l !! b = Some y ->
  <[b := x]> (<[a := y]> l) !! a = Some y /\ <[b := x]> (<[a := y]> l) !! b = Some x.
Proof.
  intros Ha Hb. pose proof (lookup_lt_Some _ _ _ Ha). pose proof (lookup_lt_Some _ _ _ Hb).
  destruct (decide (a = b)) as [->|Hne].
  - rewrite Ha in Hb. injection Hb as ->.
    rewrite list_lookup_insert_eq by (rewrite length_insert; lia). done.
  - split.
    + rewrite list_lookup_insert_ne by done.
      apply list_lookup_insert_eq. lia.
    + apply list_lookup_insert_eq. rewrite length_insert. lia.
Qed.

Lemma swap_swap {A} (l : list A) a b x y :
  l !! a = Some x -> l !! b = Some y ->
  <[b := y]> (<[a := x]> (<[b := x]> (<[a := y]> l))) = l.
Proof.
  intros Ha Hb. destruct (decide (a = b)) as [->|Hne].
  - rewrite Ha in Hb. injection Hb as ->.
    rewrite !list_insert_insert_eq. by apply list_insert_id.
  - rewrite (list_insert_insert_ne _ a b) by done.
    rewrite !list_insert_insert_eq.
    rewrite list_insert_id by (rewrite list_lookup_insert_ne by done; done).
    by apply list_insert_id.
Qed.

Lemma lookup_map {A B} (f : A -> B) (l : list A) i :
  map f l !! i = option_map f (l !! i).
Proof. revert i. induction l as [|x l IH]; intros [|i]; simpl; auto. Qed.

(** ** The checksum after each step *)

(** C1 (code_bug): the checksum does not stay equal to the sum over the
    cells. [insert_row] keeps it, but [set] adds [old - new] instead of
    [new - old], so a [Multiply] breaks it, and the two delta loops of
    [SwapRows] cancel out, so a swap leaves it unchanged while the cells
    move. *)
Theorem checksum_breaks_after_operate :
  insert_row (zrow [1; 2]%Z) new = (zmat [[1; 2]]%Z 2, Ok tt)
  /\ consistent (zmat [[1; 2]]%Z 2)
  /\ operate Debug (Multiply 0 (frac_of_Z 2)) (zmat [[1; 2]]%Z 2) = (zmat [[2; 4]]%Z 0, Ok tt)
  /\ ~ consistent (zmat [[2; 4]]%Z 0)
  /\ (let* _ := insert_row (zrow [1]%Z) in insert_row (zrow [2]%Z)) new = (zmat [[1]; [2]]%Z 2, Ok tt)
  /\ consistent (zmat [[1]; [2]]%Z 2)
  /\ operate Debug (SwapRows 0 1) (zmat [[1]; [2]]%Z 2) = (zmat [[2]; [1]]%Z 2, Ok tt)
  /\ ~ consistent (zmat [[2]; [1]]%Z 2).
Proof.
  unfold consistent. split_and?;
    first [eval_eq | apply (bool_decide_eq_false_1 (_ = _)); vm_compute; reflexivity].
Qed.

(** C2 (code_bug): a row of the wrong width is refused with the shape
    error and is not appended, but [insert_row] has already added the
    row's contribution to the checksum. *)
Theorem insert_row_mismatch_changes_checksum :
  insert_row (zrow [1; 2]%Z) new = (zmat [[1; 2]]%Z 2, Ok tt)
  /\ insert_row (zrow [5]%Z) (zmat [[1; 2]]%Z 2)
     = (zmat [[1; 2]]%Z 7, Err (InvalidRowLength 2 1 (zrow [5]%Z))).
Proof. split; eval_eq. Qed.

(** C3 (code_bug): [Multiply] and [ReplaceWithMultiple] index
    [self.elements] with the row before any bounds check, so a row index
    at or past [height()] panics instead of returning an error. *)
Theorem row_ops_out_of_range_panic (prof : profile) :
  operate prof (Multiply 1 (frac_of_Z 2)) (zmat [[1]]%Z 0) = (zmat [[1]]%Z 0, Panic)
  /\ operate prof (ReplaceWithMultiple (frac_of_Z 2) 1 0) (zmat [[1]]%Z 0) = (zmat [[1]]%Z 0, Panic)
  /\ operate prof (ReplaceWithMultiple (frac_of_Z 2) 0 1) (zmat [[1]]%Z 0) = (zmat [[1]]%Z 0, Panic).
Proof. destruct prof; split_and?; eval_eq. Qed.

(** C4 (code_bug): on a matrix with no rows, [check_xy] takes the
    out-of-range branch first and evaluates [self.height() - 1]: a debug
    build panics on the underflow, a release build reports the row as out
    of range with the wrapped maximum index. The empty-row error is never
    returned. *)
Theorem check_xy_zero_rows (c : Fraction) x y :
  check_xy Debug (mkMatrix [] c) (x, y) = Panic
  /\ check_xy Release (mkMatrix [] c) (x, y) = Err (InvalidRow (2 ^ 64 - 1) x).
Proof. split; reflexivity. Qed.

(** C7 (code_bug): the worked example. The three rows give checksum 114
    and the swap keeps 114; the [Multiply] gives row 0 = [14, 16, 18] but
    lowers the checksum by 26, to 88. *)
Theorem worked_example :
  (let* _ := insert_row (zrow [1; 2; 3]%Z) in
   let* _ := insert_row (zrow [4; 5; 6]%Z) in
   insert_row (zrow [7; 8; 9]%Z)) new
  = (zmat [[1; 2; 3]; [4; 5; 6]; [7; 8; 9]]%Z 114, Ok tt)
  /\ operate Debug (SwapRows 0 2) (zmat [[1; 2; 3]; [4; 5; 6]; [7; 8; 9]]%Z 114)
     = (zmat [[7; 8; 9]; [4; 5; 6]; [1; 2; 3]]%Z 114, Ok tt)
  /\ operate Debug (Multiply 0 (frac_of_Z 2)) (zmat [[7; 8; 9]; [4; 5; 6]; [1; 2; 3]]%Z 114)
     = (zmat [[14; 16; 18]; [4; 5; 6]; [1; 2; 3]]%Z 88, Ok tt).
Proof. split_and?; eval_eq. Qed.

(** ** The parser *)

Lemma split_once_lowercase (s : string) :
  split_once " "%char (to_lowercase s) = None -> split_once " "%char s = None.
Proof.
  induction s as [|c rest IH]; cbn [to_lowercase split_once]; [done|].
  destruct (Ascii.eqb c " ") eqn:Hc.
  - apply Ascii.eqb_eq in Hc as ->. done.
  - destruct (Ascii.eqb (lower_char c) " "); [done|].
    destruct (split_once " " (to_lowercase rest)); [by destruct p|].
    by rewrite IH.
Qed.

(** C8 (corrected): the parser has no [restart] keyword and [Operations]
    has no [Restart] variant; the bare line [restart] is refused. *)
Lemma restart_counterexample :
  try_from "restart" = Err (dq ++ "restart" ++ dq ++ " is not a complete instruction.")%string.
Proof. reflexivity. Qed.

(** C8, as amended: every line that lowercases to [restart] (any letter
    case) is refused with the error ["restart" is not a complete
    instruction.]. *)
Theorem restart_rejected (s : string) :
  to_lowercase s = "restart"%string ->
  try_from s = Err (dq ++ "restart" ++ dq ++ " is not a complete instruction.")%string.
Proof.
  intros H. unfold try_from, split_op.
  rewrite split_once_lowercase by (rewrite H; reflexivity).
  rewrite H. reflexivity.
Qed.

Lemma restart_rejected_witness :
  to_lowercase "ReStart" = "restart"%string
  /\ try_from "ReStart"
     = Err (dq ++ "restart" ++ dq ++ " is not a complete instruction.")%string.
Proof. split; [reflexivity | apply restart_rejected; reflexivity]. Defined.

(** C9: ["S R1 R2"] parses to [SwapRows{1, 2}] and ["m -1/2 0"] to
    [Multiply{row: 0, scaler: -1/2}]; ["bogus"] and ["S 1"] give
    descriptive errors, not panics. *)
Theorem parse_examples :
  try_from "S R1 R2" = Ok (SwapRows 1 2)
  /\ try_from "m -1/2 0" = Ok (Multiply 0 (Q2Qc (-1 # 2)))
  /\ try_from "bogus" = Err (dq ++ "bogus" ++ dq ++ " is not a complete instruction.")%string
  /\ try_from "S 1" = Err ("Expected two space separated row indices. Got: " ++ dq ++ "1" ++ dq)%string.
Proof. split_and?; eval_eq. Qed.

Lemma to_lowercase_app (a b : string) :
  to_lowercase (a ++ b) = (to_lowercase a ++ to_lowercase b)%string.
Proof. induction a as [|c a IH]; simpl; [done|]. by rewrite IH. Qed.

Lemma remove_r_app (a b : string) : remove_r (a ++ b) = (remove_r a ++ remove_r b)%string.
Proof.
  induction a as [|c a IH]; simpl; [done|]. rewrite IH. by destruct (Ascii.eqb c "r").
Qed.

(** C10: an index token loses every [r] and [R], wherever it stands,
    before it is parsed as a [usize]: ["1r"], ["r1r"] and ["R1"] are all
    row 1, and ["s 1r r2r"] parses to [SwapRows{1, 2}]. *)
Theorem index_tokens_drop_every_r :
  (forall a b : string, parse_index (a ++ String "r" b) = parse_index (a ++ b))
  /\ (forall a b : string, parse_index (a ++ String "R" b) = parse_index (a ++ b))
  /\ parse_index "1r" = Some 1 /\ parse_index "r1r" = Some 1 /\ parse_index "R1" = Some 1
  /\ try_from "s 1r r2r" = Ok (SwapRows 1 2).
Proof.
  split_and?; try eval_eq; intros a b; unfold parse_index, strip_r;
    rewrite !to_lowercase_app, !remove_r_app; reflexivity.
Qed.

(** ** Inserting rows *)

(** [insert_row] keeps every row at the width of the first. *)
Theorem insert_row_keeps_rectangular (m : Matrix) (row : list Fraction) (m' : Matrix) :
  rectangular (elements m) = true -> insert_row row m = (m', Ok tt) ->
  rectangular (elements m') = true.
Proof.
  destruct m as [els c]. cbn [elements]. intros Hrect Hins.
  unfold insert_row, bindM, get_m, put_m, lift, width, height in Hins. cbn in Hins.
  destruct els as [|r0 rs].
  - injection Hins as <-. reflexivity.
  - destruct (length r0 =? length row) eqn:Hw; [|discriminate].
    injection Hins as <-. cbn [elements app rectangular] in *.
    rewrite forallb_app, Hrect. cbn. rewrite Nat.eqb_sym, Hw. reflexivity.
Qed.

Lemma insert_row_keeps_rectangular_witness :
  rectangular (elements (zmat [[1; 2]]%Z 2)) = true
  /\ insert_row (zrow [3; 4]%Z) (zmat [[1; 2]]%Z 2) = (zmat [[1; 2]; [3; 4]]%Z 13, Ok tt)
  /\ rectangular (elements (zmat [[1; 2]; [3; 4]]%Z 13)) = true.
Proof.
  assert (H1 : rectangular (elements (zmat [[1; 2]]%Z 2)) = true) by reflexivity.
  assert (H2 : insert_row (zrow [3; 4]%Z) (zmat [[1; 2]]%Z 2)
               = (zmat [[1; 2]; [3; 4]]%Z 13, Ok tt)) by eval_eq.
  split_and!; [exact H1 | exact H2 | exact (insert_row_keeps_rectangular _ _ _ H1 H2)].
Defined.

(** ** Decimal row indices *)

Lemma digits_value_digit (d : N) rest acc :
  (d < 10)%N -> digits_value (String (digit_char d) rest) acc = digits_value rest (acc * 10 + d)%N.
Proof.
  intros Hd. cbn [digits_value]. unfold digit_char, nat_of_ascii.
  rewrite N_ascii_embedding by lia.
  replace ((48 <=? N.to_nat (48 + d)) && (N.to_nat (48 + d) <=? 57)) with true
    by (symmetry; apply andb_true_intro; split; apply Nat.leb_le; lia).
  f_equal. lia.
Qed.

Lemma is_digit_char (d : N) : (d < 10)%N -> is_digit (digit_char d) = true.
Proof.
  intros Hd. unfold is_digit, digit_char, nat_of_ascii. rewrite N_ascii_embedding by lia.
  apply andb_true_intro; split; apply Nat.leb_le; lia.
Qed.

Lemma decimal_value fuel (n : N) acc :
  (n < 10 ^ N.of_nat fuel)%N -> digits_value (decimal fuel n acc) 0 = digits_value acc n.
Proof.
  revert n acc. induction fuel as [|f IH]; intros n acc Hn; cbn [decimal].
  - replace n with 0%N by (cbn in Hn; lia). reflexivity.
  - assert (Hmod : (n mod 10 < 10)%N) by (apply N.mod_lt; lia).
    destruct (N.ltb_spec n 10) as [Hlt|Hge].
    + rewrite digits_value_digit by done. f_equal.
      rewrite N.mod_small by done. lia.
    + rewrite IH.
      * rewrite digits_value_digit by done. f_equal.
        pose proof (N.div_mod n 10 ltac:(lia)). lia.
      * apply N.Div0.div_lt_upper_bound.
        rewrite Nat2N.inj_succ, N.pow_succ_r' in Hn. lia.
Qed.

Lemma decimal_all_digits fuel (n : N) acc :
  all_digits acc = true -> all_digits (decimal fuel n acc) = true.
Proof.
  revert n acc. induction fuel as [|f IH]; intros n acc Hacc; cbn [decimal]; [done|].
  assert (Hd : is_digit (digit_char (n mod 10)) = true)
    by (apply is_digit_char, N.mod_lt; lia).
  destruct (n <? 10)%N; [|apply IH]; cbn [all_digits]; by rewrite Hd, Hacc.
Qed.

Lemma decimal_cons fuel (n : N) acc :
  fuel <> 0 -> exists c t, decimal fuel n acc = String c t.
Proof.
  revert n acc. induction fuel as [|f IH]; intros n acc Hf; [done|]. cbn [decimal].
  destruct (n <? 10)%N; [by eauto|].
  destruct f as [|f]; [cbn; by eauto|]. apply IH. done.
Qed.

Lemma usize_to_string_digits n :
  all_digits (usize_to_string n) = true /\ exists c t, usize_to_string n = String c t.
Proof. split; [by apply decimal_all_digits | by apply decimal_cons]. Qed.

Lemma digit_lower c : is_digit c = true -> lower_char c = c.
Proof.
  unfold is_digit, lower_char. intros [H1 H2]%andb_prop. apply Nat.leb_le in H1, H2.
  replace ((65 <=? nat_of_ascii c) && (nat_of_ascii c <=? 90)) with false; [done|].
  symmetry. apply andb_false_intro1. apply Nat.leb_gt. lia.
Qed.

Lemma digit_not c (d : ascii) : is_digit c = true -> is_digit d = false -> Ascii.eqb c d = false.
Proof.
  intros Hc Hd. destruct (Ascii.eqb_spec c d) as [->|]; [congruence | done].
Qed.

Lemma all_digits_strip s : all_digits s = true -> strip_r s = s.
Proof.
  unfold strip_r. induction s as [|c s IH]; [done|].
  cbn [all_digits]. intros [Hc Hs]%andb_prop. cbn [to_lowercase remove_r].
  rewrite (digit_lower c Hc), (digit_not c "r" Hc) by reflexivity. by rewrite IH.
Qed.

Lemma all_digits_no_space s : all_digits s = true -> split_once " "%char s = None.
Proof.
  induction s as [|c s IH]; [done|].
  cbn [all_digits]. intros [Hc Hs]%andb_prop. cbn [split_once].
  rewrite (digit_not c " " Hc) by reflexivity. by rewrite IH.
Qed.

Lemma all_digits_parse_usize s :
  all_digits s = true ->
  parse_usize s = match digits s with
                  | Some n => if (n <? 2 ^ 64)%N then Some (N.to_nat n) else None
                  | None => None
                  end.
Proof.
  unfold parse_usize. destruct s as [|c t]; [done|]. cbn [all_digits].
  intros [Hc _]%andb_prop.
  destruct c as [[] [] [] [] [] [] [] []]; destruct t; try reflexivity; discriminate.
Qed.

Lemma parse_usize_to_string n :
  (N.of_nat n < 2 ^ 64)%N -> parse_usize (usize_to_string n) = Some n.
Proof.
  intros Hn. destruct (usize_to_string_digits n) as [Hd [c [t Hct]]].
  rewrite all_digits_parse_usize by done.
  unfold digits. rewrite Hct, <- Hct. unfold usize_to_string.
  rewrite decimal_value by (cbn; lia).
  cbn [digits_value]. rewrite (proj2 (N.ltb_lt _ _) Hn). by rewrite Nat2N.id.
Qed.

Lemma split_once_app (c : ascii) a b :
  split_once c a = None -> split_once c (a ++ String c b) = Some (a, b).
Proof.
  induction a as [|ch a IH]; intros H; simpl in *.
  - by rewrite Ascii.eqb_refl.
  - destruct (Ascii.eqb ch c); [done|].
    destruct (split_once c a) as [[]|]; [done|]. by rewrite IH.
Qed.

Lemma strip_r_R s : all_digits s = true -> strip_r (String "R" s) = s.
Proof. intros H. rewrite <- (all_digits_strip s H) at 2. reflexivity. Qed.

Lemma try_from_unknown (s rest : string) :
  split_once " "%char s = None -> ~ In (to_lowercase s) op_keywords ->
  try_from (s ++ String " " rest) = Err (dq ++ s ++ dq ++ " is not a valid operation.")%string.
Proof.
  intros Hs Hn. unfold try_from, split_op. rewrite (split_once_app _ _ _ Hs).
  unfold parse_op. cbv zeta.
  assert (F : forall k, In k op_keywords -> String.eqb (to_lowercase s) k = false).
  { intros k Hk. apply String.eqb_neq. intros E. apply Hn. by rewrite E. }
  rewrite !F by (cbn; tauto). reflexivity.
Qed.

Lemma digits_not_keyword (L : string) :
  all_digits L = true -> (exists c t, L = String c t) ->
  ~ In (to_lowercase (String "R" L)) op_keywords.
Proof.
  intros Hd [c [t ->]]. cbn [all_digits] in Hd. apply andb_prop in Hd as [Hc _].
  change (to_lowercase (String "R" (String c t))) with (String "r" (String (lower_char c) (to_lowercase t))).
  rewrite (digit_lower c Hc). cbn. intros H.
  repeat destruct H as [H|H]; try done; injection H as H; subst; discriminate.
Qed.

(** ** The parser, beyond the claims *)

(** A bare keyword of [try_from] is read in any letter case, and a keyword
    followed by a space ignores whatever comes after it. *)
Theorem keywords_any_case_ignore_rest (s rest : string) (op : Operations) :
  split_once " "%char s = None ->
  In (to_lowercase s, op)
     [("h", ShowHelp); ("help", ShowHelp); ("c", ClearScreen); ("clear", ClearScreen);
      ("show", ShowMatrix); ("q", ExitProgram); ("exit", ExitProgram)]%string ->
  try_from s = Ok op /\ try_from (s ++ String " " rest) = Ok op.
Proof.
  intros Hs Hin.
  assert (P : forall rest', parse_op s rest' = Ok op /\ is_bare_keyword (to_lowercase s) = true).
  { intros rest'. unfold parse_op. cbv zeta.
    repeat destruct Hin as [Hin|Hin]; try done;
      injection Hin as Hl Ho; subst op; rewrite <- Hl; split; reflexivity. }
  destruct (P EmptyString) as [P0 B].
  unfold try_from, split_op. rewrite (split_once_app _ _ _ Hs), Hs, B.
  split; [exact P0 | exact (proj1 (P rest))].
Qed.

Lemma keywords_any_case_ignore_rest_witness :
  split_once " "%char "ExIt" = None
  /\ In (to_lowercase "ExIt", ExitProgram)
       [("h", ShowHelp); ("help", ShowHelp); ("c", ClearScreen); ("clear", ClearScreen);
        ("show", ShowMatrix); ("q", ExitProgram); ("exit", ExitProgram)]%string
  /\ try_from "ExIt" = Ok ExitProgram /\ try_from ("ExIt" ++ String " " "now") = Ok ExitProgram.
Proof.
  assert (H1 : split_once " "%char "ExIt" = None) by reflexivity.
  assert (H2 : In (to_lowercase "ExIt", ExitProgram)
       [("h", ShowHelp); ("help", ShowHelp); ("c", ClearScreen); ("clear", ClearScreen);
        ("show", ShowMatrix); ("q", ExitProgram); ("exit", ExitProgram)]%string)
    by (simpl; tauto).
  destruct (keywords_any_case_ignore_rest "ExIt" "now" ExitProgram H1 H2) as [H3 H4].
  split_and!; assumption.
Defined.

(** A first word that is not one of the operation keywords is refused with
    the error ["op" is not a valid operation.], quoting the word in its
    original letter case. *)
Theorem unknown_operation (s rest : string) :
  split_once " "%char s = None -> ~ In (to_lowercase s) op_keywords ->
  try_from (s ++ String " " rest) = Err (dq ++ s ++ dq ++ " is not a valid operation.")%string.
Proof. apply try_from_unknown. Qed.

Lemma unknown_operation_witness :
  split_once " "%char "Swap" = None /\ ~ In (to_lowercase "Swap") op_keywords
  /\ try_from ("Swap" ++ String " " "1 2")
     = Err (dq ++ "Swap" ++ dq ++ " is not a valid operation.")%string.
Proof.
  assert (H1 : split_once " "%char "Swap" = None) by reflexivity.
  assert (H2 : ~ In (to_lowercase "Swap") op_keywords).
  { cbn. intros H. repeat destruct H as [H|H]; try done. }
  split_and!; [exact H1 | exact H2 | exact (unknown_operation "Swap" "1 2" H1 H2)].
Defined.

(** Every [usize], written in decimal as [Display] prints it, is read back
    as a row index, bare or after an [R]; so ["s R<l> R<r>"] parses to
    [SwapRows{l, r}]. *)
Theorem row_index_round_trip (l r : nat) :
  (N.of_nat l < 2 ^ 64)%N -> (N.of_nat r < 2 ^ 64)%N ->
  parse_index (usize_to_string l) = Some l
  /\ parse_index ("R" ++ usize_to_string l) = Some l
  /\ try_from ("s R" ++ usize_to_string l ++ " R" ++ usize_to_string r) = Ok (SwapRows l r).
Proof.
  intros Hl Hr.
  pose proof (parse_usize_to_string l Hl) as Pl. pose proof (parse_usize_to_string r Hr) as Pr.
  destruct (usize_to_string_digits l) as [Dl _]. destruct (usize_to_string_digits r) as [Dr _].
  generalize dependent (usize_to_string l). generalize dependent (usize_to_string r).
  intros R Pr Dr L Pl Dl. unfold parse_index.
  assert (E : split_once " "%char (String "R" (L ++ String " " (String "R" R)))
              = Some (String "R" L, String "R" R)).
  { transitivity (match split_once " "%char (L ++ String " " (String "R" R)) with
                  | Some (a, b) => Some (String "R" a, b)
                  | None => None
                  end); [reflexivity|].
    by rewrite (split_once_app _ _ _ (all_digits_no_space L Dl)). }
  split_and!.
  - by rewrite all_digits_strip.
  - change ("R" ++ L)%string with (String "R" L). by rewrite strip_r_R.
  - change ("s R" ++ L ++ " R" ++ R)%string
      with (String "s" (String " " (String "R" (L ++ String " " (String "R" R))))).
    change (parse_op "s" (String "R" (L ++ String " " (String "R" R))) = Ok (SwapRows l r)).
    unfold parse_op. cbn -[split_once strip_r parse_usize]. rewrite E.
    rewrite !strip_r_R by done. by rewrite Pl, Pr.
Qed.

Lemma row_index_round_trip_witness :
  (N.of_nat 12 < 2 ^ 64)%N /\ (N.of_nat 0 < 2 ^ 64)%N
  /\ parse_index (usize_to_string 12) = Some 12
  /\ parse_index ("R" ++ usize_to_string 12) = Some 12
  /\ try_from ("s R" ++ usize_to_string 12 ++ " R" ++ usize_to_string 0) = Ok (SwapRows 12 0).
Proof.
  assert (H1 : (N.of_nat 12 < 2 ^ 64)%N) by (vm_compute; reflexivity).
  assert (H2 : (N.of_nat 0 < 2 ^ 64)%N) by (vm_compute; reflexivity).
  destruct (row_index_round_trip 12 0 H1 H2) as [H3 [H4 H5]].
  split_and!; assumption.
Defined.

(** What [Display] prints for an operation is not always read back by
    [try_from]: ["Clear Screen"], ["Show Matrix"] and ["Exit Program"] parse
    back to their operation, ["ShowHelp"] is refused, and so is the text of
    every [SwapRows], and of a [Multiply] or [ReplaceWithMultiple] whose
    scaler prints as one word that is not a keyword. *)
Theorem display_op_reparse (fmt_fraction : Fraction -> string) (l r : nat) (k : Fraction) :
  split_once " "%char (fmt_fraction k) = None -> ~ In (to_lowercase (fmt_fraction k)) op_keywords ->
  try_from (display_op fmt_fraction (SwapRows l r))
    = Err (dq ++ "R" ++ usize_to_string l ++ dq ++ " is not a valid operation.")%string
  /\ try_from (display_op fmt_fraction (Multiply l k))
    = Err (dq ++ fmt_fraction k ++ dq ++ " is not a valid operation.")%string
  /\ try_from (display_op fmt_fraction (ReplaceWithMultiple k l r))
    = Err (dq ++ fmt_fraction k ++ dq ++ " is not a valid operation.")%string
  /\ try_from (display_op fmt_fraction ShowHelp)
    = Err (dq ++ "showhelp" ++ dq ++ " is not a complete instruction.")%string
  /\ try_from (display_op fmt_fraction ClearScreen) = Ok ClearScreen
  /\ try_from (display_op fmt_fraction ShowMatrix) = Ok ShowMatrix
  /\ try_from (display_op fmt_fraction ExitProgram) = Ok ExitProgram.
Proof.
  intros Hs Hn. split_and!; try reflexivity.
  - destruct (usize_to_string_digits l) as [Dl Cl].
    unfold display_op. generalize dependent (usize_to_string l). intros L Dl Cl.
    apply (try_from_unknown (String "R" L)).
    + cbn. by rewrite (all_digits_no_space L Dl).
    + by apply digits_not_keyword.
  - by apply try_from_unknown.
  - by apply try_from_unknown.
Qed.

Lemma display_op_reparse_witness :
  split_once " "%char ((fun _ : Fraction => "1/2"%string) (Q2Qc (1 # 2))) = None
  /\ ~ In (to_lowercase ((fun _ : Fraction => "1/2"%string) (Q2Qc (1 # 2)))) op_keywords
  /\ try_from (display_op (fun _ => "1/2"%string) (Multiply 3 (Q2Qc (1 # 2))))
     = Err (dq ++ "1/2" ++ dq ++ " is not a valid operation.")%string.
Proof.
  assert (H1 : split_once " "%char ((fun _ : Fraction => "1/2"%string) (Q2Qc (1 # 2))) = None)
    by reflexivity.
  assert (H2 : ~ In (to_lowercase ((fun _ : Fraction => "1/2"%string) (Q2Qc (1 # 2)))) op_keywords).
  { cbn. intros H. repeat destruct H as [H|H]; try done. }
  split_and!; [exact H1 | exact H2 |].
  exact (proj1 (proj2 (display_op_reparse (fun _ => "1/2"%string) 3 4 (Q2Qc (1 # 2)) H1 H2))).
Defined.

(** ** The parser of src/main.rs *)

(** In src/main.rs, the [R] command parses both of its row indices from the
    first row token: the line ["R k a b"] gives [from_row = to_row = a], and
    the token [b] is never read, so it may be anything, even text with
    spaces. *)
Theorem main_replace_reads_from_row_twice {F : Type} (parse_f64 : string -> option F)
    (s a b : string) (k : F) (i : nat) :
  split_once " "%char s = None -> split_once " "%char a = None ->
  parse_f64 s = Some k -> parse_index a = Some i ->
  MainRs.try_from parse_f64 ("R " ++ s ++ " " ++ a ++ " " ++ b)
  = Ok (MainRs.ReplaceWithMultiple k i i).
Proof.
  intros Hs Ha Hk Hi.
  change ("R " ++ s ++ " " ++ a ++ " " ++ b)%string
    with ("R" ++ String " " (s ++ String " " (a ++ String " " b)))%string.
  unfold MainRs.try_from.
  rewrite (split_once_app " "%char "R" (s ++ String " " (a ++ String " " b)) eq_refl).
  cbn -[split_once parse_index String.append].
  rewrite (split_once_app _ _ _ Hs), (split_once_app _ _ _ Ha), Hk, Hi. reflexivity.
Qed.

Lemma main_replace_reads_from_row_twice_witness :
  let parse_f64 := fun t : string => if String.eqb t "2" then Some 2%Z else None in
  split_once " "%char "2" = None /\ split_once " "%char "R1" = None
  /\ parse_f64 "2"%string = Some 2%Z /\ parse_index "R1" = Some 1
  /\ MainRs.try_from parse_f64 ("R " ++ "2" ++ " " ++ "R1" ++ " " ++ "no row")
     = Ok (MainRs.ReplaceWithMultiple 2%Z 1 1).
Proof.
  intros parse_f64.
  assert (H1 : split_once " "%char "2" = None) by reflexivity.
  assert (H2 : split_once " "%char "R1" = None) by reflexivity.
  assert (H3 : parse_f64 "2"%string = Some 2%Z) by reflexivity.
  assert (H4 : parse_index "R1" = Some 1) by reflexivity.
  split_and!; try assumption.
  exact (main_replace_reads_from_row_twice parse_f64 "2" "R1" "no row" 2%Z 1 H1 H2 H3 H4).
Defined.

(** In src/main.rs, the text [Display] prints for [ExchangeRows{lhs, rhs}],
    ["E R<lhs> R<rhs>"], parses back to the same operation. *)
Theorem main_exchange_display_round_trip {F : Type} (parse_f64 : string -> option F)
    (fmt_f64 : F -> string) (l r : nat) :
  (N.of_nat l < 2 ^ 64)%N -> (N.of_nat r < 2 ^ 64)%N ->
  MainRs.try_from parse_f64 (MainRs.display_op fmt_f64 (MainRs.ExchangeRows l r))
  = Ok (MainRs.ExchangeRows l r).
Proof.
  intros Hl Hr.
  pose proof (parse_usize_to_string l Hl) as Pl. pose proof (parse_usize_to_string r Hr) as Pr.
  destruct (usize_to_string_digits l) as [Dl _]. destruct (usize_to_string_digits r) as [Dr _].
  unfold MainRs.display_op.
  generalize dependent (usize_to_string l). generalize dependent (usize_to_string r).
  intros R Pr Dr L Pl Dl.
  change ("E R" ++ L ++ " R" ++ R)%string
    with ("E" ++ String " " (String "R" L ++ String " " (String "R" R)))%string.
  unfold MainRs.try_from.
  rewrite (split_once_app " "%char "E" (String "R" L ++ String " " (String "R" R)) eq_refl).
  cbn -[split_once strip_r parse_usize String.append].
  assert (HL : split_once " "%char (String "R" L) = None)
    by (cbn; by rewrite (all_digits_no_space L Dl)).
  rewrite (split_once_app _ _ _ HL).
  rewrite !strip_r_R by done. by rewrite Pl, Pr.
Qed.

Lemma main_exchange_display_round_trip_witness :
  (N.of_nat 1 < 2 ^ 64)%N /\ (N.of_nat 20 < 2 ^ 64)%N
  /\ MainRs.try_from (fun _ => @None Z) (MainRs.display_op (fun _ : Z => "x"%string) (MainRs.ExchangeRows 1 20))
     = Ok (MainRs.ExchangeRows 1 20).
Proof.
  assert (H1 : (N.of_nat 1 < 2 ^ 64)%N) by (vm_compute; reflexivity).
  assert (H2 : (N.of_nat 20 < 2 ^ 64)%N) by (vm_compute; reflexivity).
  split_and!; [exact H1 | exact H2 |].
  exact (main_exchange_display_round_trip (fun _ => @None Z) (fun _ : Z => "x"%string) 1 20 H1 H2).
Defined.

(** ** Comparing matrices *)

(** [==] on matrices answers [true] only on equal elements and checksums;
    on two matrices whose checksums are the sums over their cells it
    answers whether the elements are equal, and prints nothing when they
    are. *)
Theorem matrix_eq_consistent (a b : Matrix) :
  consistent a -> consistent b ->
  snd (matrix_eq a b) = bool_decide (elements a = elements b)
  /\ (elements a = elements b -> matrix_eq a b = ([], true)).
Proof.
  unfold consistent, matrix_eq. intros Ha Hb. destruct (decide (checksum a = checksum b)) as [E|E].
  - split; [done|]. intros H. by rewrite bool_decide_eq_true_2.
  - assert (Hne : elements a <> elements b) by (intros H; apply E; by rewrite Ha, Hb, H).
    split; [by rewrite bool_decide_eq_false_2 | done].
Qed.

Lemma matrix_eq_consistent_witness :
  consistent (zmat [[1; 2]]%Z 2) /\ consistent (zmat [[1; 3]]%Z 3)
  /\ snd (matrix_eq (zmat [[1; 2]]%Z 2) (zmat [[1; 3]]%Z 3))
     = bool_decide (elements (zmat [[1; 2]]%Z 2) = elements (zmat [[1; 3]]%Z 3)).
Proof.
  assert (H1 : consistent (zmat [[1; 2]]%Z 2)) by eval_eq.
  assert (H2 : consistent (zmat [[1; 3]]%Z 3)) by eval_eq.
  split_and!; [exact H1 | exact H2 | exact (proj1 (matrix_eq_consistent _ _ H1 H2))].
Defined.

(** ** Reading and writing cells *)

Section CellAccess.
Variable prof : profile.

Lemma check_xy_err_get_set (m : Matrix) x y v e :
  check_xy prof m (x, y) = Err e ->
  get prof (x, y) m = (m, Err e) /\ set prof (x, y) v m = (m, Err e).
Proof. intros H. unfold get, set, bindM, get_m, lift. by rewrite H. Qed.

(** On a matrix with at least one row and a non-empty first row, [get] and
    [set] out of range return the row error, or else the column error, with
    the largest valid index, and leave the matrix as it was. *)
Theorem get_set_out_of_range (m : Matrix) w x y (v : Fraction) :
  0 < height m -> width m = Some w -> 0 < w ->
  (height m <= x ->
   get prof (x, y) m = (m, Err (InvalidRow (Z.of_nat (height m - 1)) x))
   /\ set prof (x, y) v m = (m, Err (InvalidRow (Z.of_nat (height m - 1)) x)))
  /\ (x < height m -> w <= y ->
   get prof (x, y) m = (m, Err (InvalidColumn (Z.of_nat (w - 1)) y))
   /\ set prof (x, y) v m = (m, Err (InvalidColumn (Z.of_nat (w - 1)) y))).
Proof.
  intros Hh Hw Hw0. split; intros Hx; [|intros Hy]; apply check_xy_err_get_set; unfold check_xy.
  - rewrite (proj2 (Nat.leb_le _ _) Hx). unfold usize_sub.
    by rewrite (proj2 (Nat.leb_le 1 (height m)) ltac:(lia)).
  - rewrite (proj2 (Nat.leb_gt _ _) Hx), Hw, (proj2 (Nat.leb_le _ _) Hy). unfold usize_sub.
    by rewrite (proj2 (Nat.leb_le 1 w) ltac:(lia)).
Qed.

End CellAccess.

Lemma get_set_out_of_range_witness :
  0 < height (zmat [[1; 2]]%Z 2) /\ width (zmat [[1; 2]]%Z 2) = Some 2 /\ 0 < 2
  /\ get Release (0, 5) (zmat [[1; 2]]%Z 2) = (zmat [[1; 2]]%Z 2, Err (InvalidColumn 1 5)).
Proof.
  assert (H1 : 0 < height (zmat [[1; 2]]%Z 2)) by (unfold height; cbn; lia).
  assert (H2 : width (zmat [[1; 2]]%Z 2) = Some 2) by reflexivity.
  assert (H3 : 0 < 2) by lia.
  split_and!; [exact H1 | exact H2 | exact H3 |].
  exact (proj1 (proj2 (get_set_out_of_range Release _ 2 0 5 (frac_of_Z 0) H1 H2 H3)
                  ltac:(unfold height; cbn; lia) ltac:(lia))).
Defined.

(** ** Row operations out of range *)

Section RowOps.
Variable prof : profile.

(** On a matrix with at least one row, [SwapRows] with an index past the
    last row returns the row error for the first such index, with the
    largest valid row index, and leaves the matrix as it was. *)
Theorem swap_rows_out_of_range (m : Matrix) a b :
  0 < height m ->
  (height m <= a -> operate prof (SwapRows a b) m = (m, Err (InvalidRow (Z.of_nat (height m - 1)) a)))
  /\ (a < height m -> height m <= b ->
      operate prof (SwapRows a b) m = (m, Err (InvalidRow (Z.of_nat (height m - 1)) b))).
Proof.
  intros Hh. unfold operate, bindM at 1, get_m, row_index_error, bindM, lift, usize_sub.
  rewrite (proj2 (Nat.leb_le 1 (height m)) ltac:(lia)).
  split; [intros Ha | intros Ha Hb].
  - by rewrite (proj2 (Nat.leb_le _ _) Ha).
  - by rewrite (proj2 (Nat.leb_gt _ _) Ha), (proj2 (Nat.leb_le _ _) Hb).
Qed.

End RowOps.

Lemma swap_rows_out_of_range_witness :
  0 < height (zmat [[1]; [2]]%Z 2)
  /\ operate Debug (SwapRows 0 7) (zmat [[1]; [2]]%Z 2) = (zmat [[1]; [2]]%Z 2, Err (InvalidRow 1 7)).
Proof.
  assert (H1 : 0 < height (zmat [[1]; [2]]%Z 2)) by (unfold height; cbn; lia).
  split; [exact H1|].
  exact (proj2 (swap_rows_out_of_range Debug _ 0 7 H1) ltac:(unfold height; cbn; lia)
                 ltac:(unfold height; cbn; lia)).
Defined.

(* ================================================================== *)
(** * Proofs over the bounded fractions *)

Module U64Facts.
Import U64.

Local Open Scope Z_scope.

(** Peel the [let?] steps of a hypothesis [obind r k = Ok v]. *)
Ltac peel H :=
  repeat match type of H with
  | obind ?r _ = Ok _ =>
      let E := fresh "E" in destruct r eqn:E; cbn [obind] in H; try discriminate H
  end.

Lemma wrap_ok {E} z z' : wrap (E:=E) Debug z = Ok z' -> z' = z /\ 0 <= z < modulus.
Proof.
  unfold wrap. destruct (0 <=? z) eqn:H1, (z <? modulus) eqn:H2; cbn; intros H; try discriminate.
  injection H as <-. split; [done|]. apply Z.leb_le in H1. apply Z.ltb_lt in H2. lia.
Qed.

Lemma div_ok {E} a b q : div (E:=E) a b = Ok q -> b <> 0 /\ q = a / b.
Proof. unfold div. destruct (Z.eqb_spec b 0); intros H; [discriminate|]. by injection H as <-. Qed.

Lemma modulus_pos : 0 < modulus.
Proof. unfold modulus. lia. Qed.

Lemma Qeq_rv n1 d1 n2 d2 : 0 < d1 -> 0 < d2 ->
  ((n1 # Z.to_pos d1) == (n2 # Z.to_pos d2))%Q <-> n1 * d2 = n2 * d1.
Proof. intros H1 H2. unfold Qeq. cbn [Qnum Qden]. rewrite !Z2Pos.id by done. done. Qed.

Lemma ratio_ok_iff n d :
  ratio_ok (mkRatio n d) = true <-> 0 <= n < modulus /\ 0 < d < modulus.
Proof.
  unfold ratio_ok. cbn [numer denom].
  rewrite !andb_true_iff, Z.leb_le, !Z.ltb_lt. tauto.
Qed.

Lemma ratio_new_ok {E} n d r :
  ratio_new (E:=E) n d = Ok r -> 0 <= n < modulus -> 0 <= d < modulus ->
  ratio_ok r = true /\ (ratio_value r == n # Z.to_pos d)%Q.
Proof.
  unfold ratio_new, ratio_value. intros H Hn Hd.
  destruct (Z.eqb_spec d 0) as [|Hd0]; [discriminate|].
  pose proof modulus_pos.
  destruct (Z.eqb_spec n 0) as [->|Hn0].
  { injection H as <-. cbn [numer denom]. rewrite ratio_ok_iff. split; [lia|]. apply Qeq_rv; lia. }
  destruct (Z.eqb_spec n d) as [->|Hnd].
  { injection H as <-. cbn [numer denom]. rewrite ratio_ok_iff. split; [lia|]. apply Qeq_rv; lia. }
  injection H as <-. cbn [numer denom].
  pose proof (Z.gcd_divide_l n d) as [kn Hkn]. pose proof (Z.gcd_divide_r n d) as [kd Hkd].
  assert (Hg : 0 < Z.gcd n d).
  { pose proof (Z.gcd_nonneg n d). enough (Z.gcd n d <> 0) by lia.
    intros Hz. apply Z.gcd_eq_0_r in Hz. lia. }
  set (g := Z.gcd n d) in *. clearbody g. subst n d.
  rewrite !Z.div_mul by lia. rewrite ratio_ok_iff.
  split; [nia|]. apply Qeq_rv; nia.
Qed.

Lemma gcd_pos_r a b : b <> 0 -> 0 < Z.gcd a b.
Proof.
  intros Hb. pose proof (Z.gcd_nonneg a b). enough (Z.gcd a b <> 0) by lia.
  intros Hz. apply Z.gcd_eq_0_r in Hz. lia.
Qed.

Lemma gcd_pos_l a b : a <> 0 -> 0 < Z.gcd a b.
Proof. intros Ha. rewrite Z.gcd_comm. by apply gcd_pos_r. Qed.

Lemma ratio_arith_ok {E} (op : Z -> Z -> Z) a b r :
  (forall x y k, op (x * k) (y * k) = op x y * k) ->
  ratio_arith (E:=E) Debug op a b = Ok r -> ratio_ok a = true -> ratio_ok b = true ->
  ratio_ok r = true
  /\ (ratio_value r == (op (numer a * denom b) (numer b * denom a))%Z # Z.to_pos (denom a * denom b))%Q.
Proof.
  intros Hop. destruct a as [na da], b as [nb db].
  unfold ratio_arith. cbn [numer denom]. rewrite !ratio_ok_iff. intros H Ha Hb.
  destruct (Z.eqb_spec da db) as [<-|Hne].
  - peel H. apply wrap_ok in E0 as [-> Hz].
    destruct (ratio_new_ok _ _ _ H Hz ltac:(lia)) as [Hr Hv]. split; [done|].
    rewrite Hv. apply Qeq_rv; [lia | nia |].
    rewrite Hop. ring.
  - peel H. unfold lcm in E0.
    destruct (Z.eqb_spec da 0); [lia|]. cbn [andb] in E0.
    apply wrap_ok in E0 as [-> Hl]. apply div_ok in E1 as [_ ->]. apply wrap_ok in E2 as [-> Hna].
    apply div_ok in E3 as [_ ->]. apply wrap_ok in E4 as [-> Hnb]. apply wrap_ok in E5 as [-> Hn].
    assert (Hg : 0 < Z.gcd da db) by (apply gcd_pos_l; lia).
    pose proof (Z.gcd_divide_l da db) as [ka Hka]. pose proof (Z.gcd_divide_r da db) as [kb Hkb].
    set (g := Z.gcd da db) in *. clearbody g. subst da db.
    rewrite Z.div_mul in * by lia.
    replace (ka * g * kb) with (kb * (ka * g)) in * by ring.
    rewrite Z.div_mul in * by lia.
    replace (kb * (ka * g)) with (ka * (kb * g)) in * by ring.
    rewrite Z.div_mul in * by lia.
    destruct (ratio_new_ok _ _ _ H Hn ltac:(lia)) as [Hr Hv]. split; [done|].
    rewrite Hv. apply Qeq_rv; [nia | nia |].
    replace (na * (kb * g)) with ((na * kb) * g) by ring.
    replace (nb * (ka * g)) with ((nb * ka) * g) by ring.
    rewrite Hop. ring.
Qed.

Lemma ratio_mul_ok {E} a b r :
  ratio_mul (E:=E) Debug a b = Ok r -> ratio_ok a = true -> ratio_ok b = true ->
  ratio_ok r = true
  /\ (ratio_value r == (numer a * numer b)%Z # Z.to_pos (denom a * denom b))%Q.
Proof.
  destruct a as [na da], b as [nb db].
  unfold ratio_mul. cbn [numer denom]. rewrite !ratio_ok_iff. intros H Ha Hb.
  peel H.
  apply div_ok in E0 as [_ ->]. apply div_ok in E1 as [_ ->]. apply wrap_ok in E2 as [-> Hn].
  apply div_ok in E3 as [_ ->]. apply div_ok in E4 as [_ ->]. apply wrap_ok in E5 as [-> Hd].
  assert (Hg1 : 0 < Z.gcd na db) by (apply gcd_pos_r; lia).
  assert (Hg2 : 0 < Z.gcd da nb) by (apply gcd_pos_l; lia).
  pose proof (Z.gcd_divide_l na db) as [k1 Hk1]. pose proof (Z.gcd_divide_r na db) as [k2 Hk2].
  pose proof (Z.gcd_divide_l da nb) as [k3 Hk3]. pose proof (Z.gcd_divide_r da nb) as [k4 Hk4].
  set (g1 := Z.gcd na db) in *. set (g2 := Z.gcd da nb) in *. clearbody g1 g2.
  subst na db da nb. rewrite !Z.div_mul in * by lia.
  destruct (ratio_new_ok _ _ _ H Hn Hd) as [Hr Hv]. split; [done|].
  rewrite Hv. apply Qeq_rv; [nia | nia | ring].
Qed.

Lemma rv_plus n1 d1 n2 d2 : 0 < d1 -> 0 < d2 ->
  ((n1 * d2 + n2 * d1)%Z # Z.to_pos (d1 * d2) == (n1 # Z.to_pos d1) + (n2 # Z.to_pos d2))%Q.
Proof.
  intros H1 H2. unfold Qeq, Qplus. cbn [Qnum Qden].
  rewrite !Pos2Z.inj_mul, !Z2Pos.id by nia. ring.
Qed.

Lemma rv_minus n1 d1 n2 d2 : 0 < d1 -> 0 < d2 ->
  ((n1 * d2 - n2 * d1)%Z # Z.to_pos (d1 * d2) == (n1 # Z.to_pos d1) - (n2 # Z.to_pos d2))%Q.
Proof.
  intros H1 H2. unfold Qeq, Qminus, Qplus, Qopp. cbn [Qnum Qden].
  rewrite !Pos2Z.inj_mul, !Z2Pos.id by nia. ring.
Qed.

Lemma rv_mult n1 d1 n2 d2 : 0 < d1 -> 0 < d2 ->
  ((n1 * n2)%Z # Z.to_pos (d1 * d2) == (n1 # Z.to_pos d1) * (n2 # Z.to_pos d2))%Q.
Proof.
  intros H1 H2. unfold Qeq, Qmult. cbn [Qnum Qden].
  rewrite !Pos2Z.inj_mul, !Z2Pos.id by nia. ring.
Qed.

Lemma ratio_add_ok {E} a b r :
  ratio_add (E:=E) Debug a b = Ok r -> ratio_ok a = true -> ratio_ok b = true ->
  ratio_ok r = true /\ (ratio_value r == ratio_value a + ratio_value b)%Q.
Proof.
  intros H Ha Hb. destruct (ratio_arith_ok Z.add a b r ltac:(intros; ring) H Ha Hb) as [Hr Hv].
  split; [done|]. rewrite Hv. destruct a as [na da], b as [nb db].
  apply ratio_ok_iff in Ha, Hb. unfold ratio_value. cbn [numer denom] in *.
  apply rv_plus; lia.
Qed.

Lemma ratio_sub_ok {E} a b r :
  ratio_sub (E:=E) Debug a b = Ok r -> ratio_ok a = true -> ratio_ok b = true ->
  ratio_ok r = true /\ (ratio_value r == ratio_value a - ratio_value b)%Q.
Proof.
  intros H Ha Hb. destruct (ratio_arith_ok Z.sub a b r ltac:(intros; ring) H Ha Hb) as [Hr Hv].
  split; [done|]. rewrite Hv. destruct a as [na da], b as [nb db].
  apply ratio_ok_iff in Ha, Hb. unfold ratio_value. cbn [numer denom] in *.
  apply rv_minus; lia.
Qed.

Lemma ratio_mul_ok' {E} a b r :
  ratio_mul (E:=E) Debug a b = Ok r -> ratio_ok a = true -> ratio_ok b = true ->
  ratio_ok r = true /\ (ratio_value r == ratio_value a * ratio_value b)%Q.
Proof.
  intros H Ha Hb. destruct (ratio_mul_ok a b r H Ha Hb) as [Hr Hv].
  split; [done|]. rewrite Hv. destruct a as [na da], b as [nb db].
  apply ratio_ok_iff in Ha, Hb. unfold ratio_value. cbn [numer denom] in *.
  apply rv_mult; lia.
Qed.

Local Close Scope Z_scope.

(** A [Debug] result of [+], [-] or [*] on finite fractions is finite and
    exact. *)
Lemma add_ok {E} a b c :
  add (E:=E) Debug a b = Ok c -> finite a = true -> finite b = true ->
  finite c = true /\ (value c == value a + value b)%Q.
Proof.
  destruct a as [ls l| |], b as [rs r| |]; cbn [finite]; intros H Ha Hb; try discriminate.
  unfold add in H.
  destruct ls, rs; [| destruct (ratio_lt l r) | destruct (ratio_lt r l) |]; peel H;
    injection H as <-; cbn [finite value];
    first [ destruct (ratio_add_ok _ _ _ E0 Ha Hb) as [Hr Hv]
          | destruct (ratio_sub_ok _ _ _ E0 Hb Ha) as [Hr Hv]
          | destruct (ratio_sub_ok _ _ _ E0 Ha Hb) as [Hr Hv] ];
    (split; [done|]); rewrite Hv; ring.
Qed.

Lemma sub_ok {E} a b c :
  sub (E:=E) Debug a b = Ok c -> finite a = true -> finite b = true ->
  finite c = true /\ (value c == value a - value b)%Q.
Proof.
  destruct a as [ls l| |], b as [rs r| |]; cbn [finite]; intros H Ha Hb; try discriminate.
  unfold sub in H.
  destruct ls, rs; [destruct (ratio_lt l r) | | | destruct (ratio_lt l r)]; peel H;
    injection H as <-; cbn [finite value];
    first [ destruct (ratio_add_ok _ _ _ E0 Ha Hb) as [Hr Hv]
          | destruct (ratio_sub_ok _ _ _ E0 Hb Ha) as [Hr Hv]
          | destruct (ratio_sub_ok _ _ _ E0 Ha Hb) as [Hr Hv] ];
    (split; [done|]); rewrite Hv; ring.
Qed.

Lemma mul_ok {E} a b c :
  mul (E:=E) Debug a b = Ok c -> finite a = true -> finite b = true ->
  finite c = true /\ (value c == value a * value b)%Q.
Proof.
  destruct a as [ls l| |], b as [rs r| |]; cbn [finite]; intros H Ha Hb; try discriminate.
  unfold mul in H. peel H. injection H as <-.
  destruct (ratio_mul_ok' _ _ _ E0 Ha Hb) as [Hr Hv].
  destruct ls, rs; cbn [finite value sign_mul sign_eqb]; (split; [done|]); rewrite Hv; ring.
Qed.

Lemma from_u64_ok z : (0 <= z < modulus)%Z ->
  finite (from_u64 z) = true /\ (value (from_u64 z) == inject_Z z)%Q.
Proof.
  intros Hz. unfold from_u64. cbn [finite value]. rewrite ratio_ok_iff.
  unfold modulus in *. split; [lia|]. reflexivity.
Qed.

Lemma index_ok n : f64_exact n = true ->
  finite (usize_u64 n) = true /\ (value (usize_u64 n) == inject_Z (Z.of_nat n))%Q.
Proof.
  unfold f64_exact, usize_u64. intros H. apply Z.ltb_lt in H.
  apply from_u64_ok. unfold modulus. lia.
Qed.

Lemma calc_ok x y n r :
  calc_checksum Debug x y n = Ok r -> finite x = true -> finite y = true -> finite n = true ->
  finite r = true /\ (value r == (value x + value y) * value n)%Q.
Proof.
  unfold calc_checksum. intros H Hx Hy Hn. peel H.
  destruct (add_ok _ _ _ E Hx Hy) as [Hs Hsv].
  destruct (mul_ok _ _ _ H Hs Hn) as [Hr Hrv].
  split; [done|]. rewrite Hrv, Hsv. reflexivity.
Qed.

(** *** The state monad *)

Lemma bindM_inv {A B} (c : M A) (k : A -> M B) m m' b :
  bindM c k m = (m', Ok b) -> exists m1 a, c m = (m1, Ok a) /\ k a m1 = (m', Ok b).
Proof.
  unfold bindM. destruct (c m) as [m1 [a| |]]; intros H; [eauto | discriminate | discriminate].
Qed.

(** Peel the [let*] steps of a hypothesis [bindM c k m = (m', Ok b)]. *)
Ltac runM H :=
  repeat match type of H with
  | bindM _ _ _ = (_, Ok _) =>
      let st := fresh "st" in let x := fresh "x" in let Hs := fresh "Hs" in
      apply bindM_inv in H as (st & x & Hs & H); cbn beta in H;
      first [ unfold get_m in Hs; injection Hs as <- <-
            | unfold lift in Hs; injection Hs as <- Hs
            | unfold put_m in Hs; injection Hs as <- <-
            | idtac ]
  end.

Lemma vindex_ok {A E} (l : list A) i a : vindex (E:=E) l i = Ok a -> l !! i = Some a.
Proof. unfold vindex. destruct (l !! i); intros H; [by injection H as <- | discriminate]. Qed.

Lemma for_seq_inv (I : nat -> Matrix -> Prop) (body : nat -> M unit) s n st st' :
  I s st ->
  (forall i s1 s2, s <= i < s + n -> I i s1 -> body i s1 = (s2, Ok tt) -> I (S i) s2) ->
  for_each (seq s n) body st = (st', Ok tt) -> I (s + n) st'.
Proof.
  revert s st. induction n as [|n IH]; intros s st H0 Hstep H.
  - cbn in H. injection H as <-. by rewrite Nat.add_0_r.
  - cbn [seq for_each] in H. apply bindM_inv in H as (st1 & [] & H1 & H).
    replace (s + S n) with (S s + n) by lia.
    apply (IH (S s) st1); [eapply Hstep; eauto; lia | intros; eapply Hstep; eauto; lia | done].
Qed.

Lemma row_index_error_not_ok prof m r st' u : row_index_error prof m r m <> (st', Ok u).
Proof.
  unfold row_index_error, bindM, lift. by destruct (usize_sub prof (height m) 1).
Qed.

Lemma cells_finite_lookup els x row y v :
  cells_finite els = true -> els !! x = Some row -> row !! y = Some v -> finite v = true.
Proof.
  unfold cells_finite. rewrite forallb_forall. intros H Hx Hy.
  specialize (H row ltac:(apply list_elem_of_In; by eapply list_elem_of_lookup_2)).
  rewrite forallb_forall in H. apply H. apply list_elem_of_In. by eapply list_elem_of_lookup_2.
Qed.

Lemma forallb_insert {A} (P : A -> bool) (l : list A) i x :
  forallb P l = true -> P x = true -> forallb P (<[i := x]> l) = true.
Proof.
  revert i. induction l as [|y l IH]; intros [|i] Hl Hx; cbn in *; try done;
    apply andb_true_iff in Hl as [Hy Hl]; rewrite ?Hx, ?Hy; cbn; auto.
Qed.

Lemma forallb_lookup {A} (P : A -> bool) (l : list A) i x :
  forallb P l = true -> l !! i = Some x -> P x = true.
Proof.
  rewrite forallb_forall. intros H Hi. apply H. apply list_elem_of_In.
  by eapply list_elem_of_lookup_2.
Qed.

Lemma small_index n i : f64_exact n = true -> i < n -> f64_exact i = true.
Proof. unfold f64_exact. rewrite !Z.ltb_lt. lia. Qed.

Lemma forallb_swap {A} (P : A -> bool) (l : list A) a b x y :
  forallb P l = true -> l !! a = Some x -> l !! b = Some y ->
  forallb P (<[b := x]> (<[a := y]> l)) = true.
Proof.
  intros Hl Ha Hb. apply forallb_insert; [apply forallb_insert|]; try done;
    [exact (forallb_lookup _ _ _ _ Hl Hb) | exact (forallb_lookup _ _ _ _ Hl Ha)].
Qed.

(** *** One [SwapRows] *)

Section SwapU64.
Variable from_f64 : nat -> Fraction.
Hypothesis Hf : forall n, f64_exact n = true -> from_f64 n = usize_u64 n.

Lemma swap_pass_ok p q i els c st :
  swap_pass from_f64 Debug p q i (mkMatrix els c) = (st, Ok tt) ->
  cells_finite els = true -> finite c = true ->
  f64_exact p = true -> f64_exact q = true ->
  forallb (fun r => f64_exact (length r)) els = true ->
  exists rp rq vp vq c',
    els !! p = Some rp /\ els !! q = Some rq /\ rp !! i = Some vp /\ rq !! i = Some vq
    /\ st = mkMatrix els c' /\ finite c' = true
    /\ (value c' == value c + ((inject_Z (Z.of_nat q) + inject_Z (Z.of_nat i)) * value vq
                               - (inject_Z (Z.of_nat p) + inject_Z (Z.of_nat i)) * value vp))%Q.
Proof.
  intros H Hcells Hc Hp Hq Hrows. unfold swap_pass in H. runM H.
  unfold put_m in H. injection H as <-.
  apply vindex_ok in Hs, Hs0, Hs1, Hs2.
  assert (Hi : f64_exact i = true).
  { apply (small_index (length x1)); [exact (forallb_lookup _ _ _ _ Hrows Hs1) | exact (lookup_lt_Some _ _ _ Hs2)]. }
  rewrite !Hf in Hs4 by done.
  destruct (index_ok p Hp) as [Fp Vp]. destruct (index_ok q Hq) as [Fq Vq].
  destruct (index_ok i Hi) as [Fi Vi].
  pose proof (cells_finite_lookup _ _ _ _ _ Hcells Hs Hs0) as Fo.
  pose proof (cells_finite_lookup _ _ _ _ _ Hcells Hs1 Hs2) as Fn.
  destruct (calc_ok _ _ _ _ Hs3 Fq Fi Fo) as [Fa Va].
  destruct (calc_ok _ _ _ _ Hs4 Fp Fi Fn) as [Fb Vb].
  destruct (sub_ok _ _ _ Hs5 Fa Fb) as [Fd Vd].
  destruct (add_ok _ _ _ Hs6 Hc Fd) as [Fc Vc].
  exists x1, x, x2, x0, x6. split_and!; try done.
  rewrite Vc, Vd, Va, Vb, Vp, Vq, Vi. reflexivity.
Qed.

Lemma swap_loop p q els c rp rq n st :
  els !! p = Some rp -> els !! q = Some rq ->
  cells_finite els = true -> finite c = true -> f64_exact p = true -> f64_exact q = true ->
  forallb (fun r => f64_exact (length r)) els = true ->
  for_range n (swap_pass from_f64 Debug p q) (mkMatrix els c) = (st, Ok tt) ->
  exists c', st = mkMatrix els c' /\ finite c' = true
    /\ (value c' == value c + qsum n (fun i =>
          (inject_Z (Z.of_nat q) + inject_Z (Z.of_nat i)) * value (rq !!! i)
          - (inject_Z (Z.of_nat p) + inject_Z (Z.of_nat i)) * value (rp !!! i)))%Q
    /\ forall i, i < n -> i < length rp /\ i < length rq.
Proof.
  intros Hp Hq Hcells Hc Hpx Hqx Hrows H.
  refine (for_seq_inv (fun i st => exists c', st = mkMatrix els c' /\ finite c' = true
    /\ (value c' == value c + qsum i (fun i =>
          (inject_Z (Z.of_nat q) + inject_Z (Z.of_nat i)) * value (rq !!! i)
          - (inject_Z (Z.of_nat p) + inject_Z (Z.of_nat i)) * value (rp !!! i)))%Q
    /\ forall j, j < i -> j < length rp /\ j < length rq) _ 0 n _ _ _ _ H).
  - exists c. split_and!; try done; [cbn; ring | lia].
  - intros i s1 s2 _ (c1 & -> & Hc1 & Hv1 & Hlt) Hs.
    destruct (swap_pass_ok _ _ _ _ _ _ Hs Hcells Hc1 Hpx Hqx Hrows)
      as (rp' & rq' & vp & vq & c2 & Hp' & Hq' & Hvp & Hvq & -> & Hc2 & Hv2).
    rewrite Hp in Hp'. injection Hp' as <-. rewrite Hq in Hq'. injection Hq' as <-.
    exists c2. split_and!; try done.
    + rewrite Hv2, Hv1. cbn [qsum].
      rewrite (list_lookup_total_correct _ _ _ Hvp), (list_lookup_total_correct _ _ _ Hvq). ring.
    + intros j Hj. destruct (decide (j = i)) as [->|Hne].
      * split; eapply lookup_lt_Some; eauto.
      * apply Hlt. lia.
Qed.

Lemma qsum_cancel n (f g : nat -> Q) :
  (forall i, f i + g i == 0)%Q -> (qsum n f + qsum n g == 0)%Q.
Proof.
  intros Hfg. induction n as [|n IH]; cbn [qsum]; [reflexivity|].
  transitivity ((qsum n f + qsum n g) + (f n + g n))%Q; [ring|].
  rewrite IH, Hfg. reflexivity.
Qed.

Lemma swap_once (m m1 : Matrix) a b :
  operate from_f64 Debug (SwapRows a b) m = (m1, Ok tt) ->
  cells_finite (elements m) = true -> finite (checksum m) = true -> small m = true ->
  exists ra rb, elements m !! a = Some ra /\ elements m !! b = Some rb
    /\ length ra = length rb
    /\ elements m1 = <[b := ra]> (<[a := rb]> (elements m))
    /\ finite (checksum m1) = true /\ (value (checksum m1) == value (checksum m))%Q.
Proof.
  destruct m as [els c]. intros H Hcells Hc Hsmall. cbn [elements checksum] in *.
  unfold small in Hsmall. apply andb_true_iff in Hsmall as [Hh Hrows].
  unfold operate in H. apply bindM_inv in H as (st & x & Hs & H). cbv [get_m] in Hs.
  injection Hs as <- <-. cbn beta in H.
  destruct (height (mkMatrix els c) <=? a) eqn:Ha; [by apply row_index_error_not_ok in H|].
  destruct (height (mkMatrix els c) <=? b) eqn:Hb; [by apply row_index_error_not_ok in H|].
  apply Nat.leb_gt in Ha, Hb. unfold height in Ha, Hb. cbn [elements] in Ha, Hb.
  destruct (lookup_lt_is_Some_2 _ _ Ha) as [ra Hra].
  destruct (lookup_lt_is_Some_2 _ _ Hb) as [rb Hrb].
  runM H. cbn [elements checksum] in *.
  unfold vec_swap in Hs. rewrite Hra, Hrb in Hs. injection Hs as <-.
  destruct (swap_lookup els a b ra rb Hra Hrb) as [Ha2 Hb2].
  apply vindex_ok in Hs0. rewrite Ha2 in Hs0. injection Hs0 as <-.
  assert (Hax : f64_exact a = true) by (apply (small_index _ _ Hh); done).
  assert (Hbx : f64_exact b = true) by (apply (small_index _ _ Hh); done).
  pose proof (forallb_swap _ _ a b ra rb Hrows Hra Hrb) as Hrows'.
  pose proof (forallb_swap _ _ a b ra rb Hcells Hra Hrb) as Hcells'.
  destruct x1.
  destruct (swap_loop a b _ c rb ra _ _ Ha2 Hb2 Hcells' Hc Hax Hbx Hrows' Hs1)
    as (c1 & Hst & Hc1 & Hv1 & Hlt1). subst st.
  cbn [elements checksum] in *.
  apply vindex_ok in Hs2. rewrite Hb2 in Hs2. injection Hs2 as <-.
  destruct (swap_loop b a _ c1 ra rb _ _ Hb2 Ha2 Hcells' Hc1 Hbx Hax Hrows' H)
    as (c2 & -> & Hc2 & Hv2 & Hlt2).
  assert (Hlen : length ra = length rb).
  { destruct (Nat.lt_trichotomy (length ra) (length rb)) as [Hl|[Hl|Hl]]; [|done|].
    - specialize (Hlt1 (length ra) Hl). lia.
    - specialize (Hlt2 (length rb) Hl). lia. }
  exists ra, rb. split_and!; try done. cbn [checksum].
  rewrite Hv2, Hv1, Hlen, <- Qplus_assoc, qsum_cancel; [ring|].
  intros i. ring.
Qed.

Lemma swap_keeps (m m1 : Matrix) a b ra rb :
  elements m !! a = Some ra -> elements m !! b = Some rb ->
  elements m1 = <[b := ra]> (<[a := rb]> (elements m)) ->
  cells_finite (elements m) = true -> small m = true ->
  cells_finite (elements m1) = true /\ small m1 = true.
Proof.
  intros Ha Hb He Hcells Hsmall. unfold small, height in *. rewrite He.
  apply andb_true_iff in Hsmall as [Hh Hrows]. rewrite !length_insert.
  split; [by apply forallb_swap|]. rewrite Hh. cbn. by apply forallb_swap.
Qed.

End SwapU64.

(** *** [ReplaceWithMultiple] with [from_row = to_row] *)

Lemma scale_row_ok row k sr :
  scale_row Debug row k = Ok sr ->
  length sr = length row
  /\ forall j v, row !! j = Some v -> exists s, sr !! j = Some s /\ mul (E:=MatrixError) Debug v k = Ok s.
Proof.
  revert sr. induction row as [|v row IH]; intros sr H; cbn in H.
  - injection H as <-. split; [done|]. intros j v Hj. by rewrite lookup_nil in Hj.
  - peel H. injection H as <-. destruct (IH _ eq_refl) as [Hl Hj].
    split; [cbn; by rewrite Hl|]. intros [|j] w Hw; cbn in Hw |- *.
    + injection Hw as <-. eauto.
    + by apply Hj.
Qed.

Lemma get_ok_inv prof (m m' : Matrix) x y v :
  get prof (x, y) m = (m', Ok v) ->
  m' = m /\ exists row, elements m !! x = Some row /\ row !! y = Some v.
Proof.
  intros H. unfold get in H. runM H. unfold lift in H. injection H as <- H.
  apply vindex_ok in Hs0, H. eauto.
Qed.

Lemma set_ok_inv from_f64 prof (m m' : Matrix) x y v :
  set from_f64 prof (x, y) v m = (m', Ok tt) ->
  exists row c', elements m !! x = Some row /\ y < length row
    /\ m' = mkMatrix (<[x := <[y := v]> row]> (elements m)) c'.
Proof.
  intros H. unfold set in H. runM H. unfold put_m in H. injection H as <-.
  apply vindex_ok in Hs0, Hs1. exists x1, x6. split_and!; try done.
  by eapply lookup_lt_Some.
Qed.

Section ReplaceU64.
Variable from_f64 : nat -> Fraction.
Variables (els : list (list Fraction)) (r : nat) (row sr : list Fraction) (k : Fraction).
Hypothesis Hcells : cells_finite els = true.
Hypothesis Hk : finite k = true.
Hypothesis Hr : els !! r = Some row.
Hypothesis Hsr : scale_row Debug row k = Ok sr.

(** After the cells before [i] are processed, they hold [(1 + k) * v] for
    their original [v]; the others still hold their original value. *)
Definition replace_inv (i : nat) (st : Matrix) : Prop :=
  exists cur c, st = mkMatrix (<[r := cur]> els) c /\ length cur = length row
    /\ (forall j, i <= j -> cur !! j = row !! j)
    /\ (forall j v, j < i -> row !! j = Some v ->
          exists v', cur !! j = Some v' /\ finite v' = true
                     /\ (value v' == (1 + value k) * value v)%Q).

Lemma replace_step i s1 s2 :
  replace_inv i s1 ->
  bindM (get Debug (r, i)) (fun v =>
    bindM (lift (vindex sr i)) (fun s =>
      bindM (lift (add Debug v s)) (fun w => set from_f64 Debug (r, i) w))) s1 = (s2, Ok tt) ->
  replace_inv (S i) s2.
Proof.
  intros (cur & c & -> & Hlen & Hrest & Hdone) H.
  pose proof (lookup_lt_Some _ _ _ Hr) as Hr'.
  runM H.
  apply get_ok_inv in Hs as [-> (rowr & Hrowr & Hv0)]. cbn [elements] in Hrowr.
  rewrite list_lookup_insert_eq in Hrowr by lia. injection Hrowr as <-.
  rewrite Hrest in Hv0 by lia.
  apply vindex_ok in Hs0.
  destruct (scale_row_ok _ _ _ Hsr) as [_ Hs']. destruct (Hs' _ _ Hv0) as (s & Hs & Hmul).
  rewrite Hs0 in Hs. injection Hs as <-.
  apply set_ok_inv in H as (rowr & c' & Hrowr & Hi & ->). cbn [elements] in Hrowr.
  rewrite list_lookup_insert_eq in Hrowr by lia. injection Hrowr as <-.
  pose proof (cells_finite_lookup _ _ _ _ _ Hcells Hr Hv0) as Fv.
  destruct (mul_ok _ _ _ Hmul Fv Hk) as [Fs Vs].
  destruct (add_ok _ _ _ Hs1 Fv Fs) as [Fw Vw].
  exists (<[i := x1]> cur), c'. split_and!.
  - cbn [elements]. by rewrite list_insert_insert_eq.
  - by rewrite length_insert.
  - intros j Hj. rewrite list_lookup_insert_ne by lia. apply Hrest. lia.
  - intros j v Hj Hv. destruct (decide (j = i)) as [->|Hne].
    + rewrite Hv in Hv0. injection Hv0 as <-.
      exists x1. rewrite list_lookup_insert_eq by done. split_and!; try done.
      rewrite Vw, Vs. ring.
    + rewrite list_lookup_insert_ne by congruence. apply Hdone; [lia | done].
Qed.

End ReplaceU64.

Lemma replace_self_run from_f64 (m m' : Matrix) k r row :
  cells_finite (elements m) = true -> finite k = true ->
  elements m !! r = Some row ->
  operate from_f64 Debug (ReplaceWithMultiple k r r) m = (m', Ok tt) ->
  exists row', elements m' = <[r := row']> (elements m) /\ length row' = length row
    /\ forall j v, row !! j = Some v -> exists v', row' !! j = Some v' /\ finite v' = true
         /\ (value v' == (1 + value k) * value v)%Q.
Proof.
  intros Hcells Hk Hr H. destruct m as [els c]. cbn [elements] in *.
  unfold operate in H. runM H.
  apply vindex_ok in Hs, Hs1. rewrite Hr in Hs, Hs1.
  injection Hs as <-. injection Hs1 as <-.
  assert (H0 : replace_inv els r row k 0 (mkMatrix els c)).
  { exists row, c. split_and!; [by rewrite list_insert_id | done | done | intros; lia]. }
  destruct (for_seq_inv _ _ 0 (length row) _ _ H0
    (fun i s1 s2 _ Hi Hb => replace_step from_f64 els r row x0 k Hcells Hk Hr Hs0 i s1 s2 Hi Hb) H)
    as (cur & c' & -> & Hlen & _ & Hdone).
  exists cur. split_and!; try done.
  intros j v Hv. apply Hdone; [|done]. apply lookup_lt_Some in Hv. lia.
Qed.

End U64Facts.

(* ================================================================== *)
(** * The exact model refines the bounded one *)

(** A debug run of the bounded model that does not panic computes, cell by
    cell and for the checksum, the values the exact model computes. *)

Lemma Q2Qc_eq (p q : Q) : (p == q)%Q -> Q2Qc p = Q2Qc q.
Proof. intros H. apply Qc_is_canon. cbn. by rewrite !Qred_correct. Qed.

Lemma Q2Qc_plus (p q : Q) : Q2Qc (p + q) = (Q2Qc p + Q2Qc q)%Qc.
Proof. unfold Qcplus. apply Q2Qc_eq. cbn. by rewrite !Qred_correct. Qed.

Lemma Q2Qc_minus (p q : Q) : Q2Qc (p - q) = (Q2Qc p - Q2Qc q)%Qc.
Proof. unfold Qcminus, Qcplus, Qcopp. apply Q2Qc_eq. cbn. rewrite !Qred_correct. ring. Qed.

Lemma Q2Qc_mult (p q : Q) : Q2Qc (p * q) = (Q2Qc p * Q2Qc q)%Qc.
Proof. unfold Qcmult. apply Q2Qc_eq. cbn. by rewrite !Qred_correct. Qed.

Lemma abs_add {E} a b c :
  U64.add (E:=E) Debug a b = Ok c -> U64.finite a = true -> U64.finite b = true ->
  U64.finite c = true /\ abs_frac c = (abs_frac a + abs_frac b)%Qc.
Proof.
  intros H Ha Hb. destruct (U64Facts.add_ok a b c H Ha Hb) as [Hc Hv].
  split; [done|]. unfold abs_frac. by rewrite <- Q2Qc_plus, (Q2Qc_eq _ _ Hv).
Qed.

Lemma abs_sub {E} a b c :
  U64.sub (E:=E) Debug a b = Ok c -> U64.finite a = true -> U64.finite b = true ->
  U64.finite c = true /\ abs_frac c = (abs_frac a - abs_frac b)%Qc.
Proof.
  intros H Ha Hb. destruct (U64Facts.sub_ok a b c H Ha Hb) as [Hc Hv].
  split; [done|]. unfold abs_frac. by rewrite <- Q2Qc_minus, (Q2Qc_eq _ _ Hv).
Qed.

Lemma abs_mul {E} a b c :
  U64.mul (E:=E) Debug a b = Ok c -> U64.finite a = true -> U64.finite b = true ->
  U64.finite c = true /\ abs_frac c = (abs_frac a * abs_frac b)%Qc.
Proof.
  intros H Ha Hb. destruct (U64Facts.mul_ok a b c H Ha Hb) as [Hc Hv].
  split; [done|]. unfold abs_frac. by rewrite <- Q2Qc_mult, (Q2Qc_eq _ _ Hv).
Qed.

Lemma abs_usize n : U64.f64_exact n = true ->
  U64.finite (U64.usize_u64 n) = true /\ abs_frac (U64.usize_u64 n) = usize_frac n.
Proof.
  intros H. destruct (U64Facts.index_ok n H) as [Hf Hv]. split; [done|].
  unfold abs_frac, usize_frac, frac_of_Z. exact (Q2Qc_eq _ _ Hv).
Qed.

Lemma abs_calc x y n r :
  U64.calc_checksum Debug x y n = Ok r ->
  U64.finite x = true -> U64.finite y = true -> U64.finite n = true ->
  U64.finite r = true /\ abs_frac r = calc_checksum (abs_frac x) (abs_frac y) (abs_frac n).
Proof.
  unfold U64.calc_checksum, calc_checksum. intros H Hx Hy Hn.
  destruct (U64.add Debug x y) as [s| |] eqn:Hs; cbn [obind] in H; try discriminate.
  destruct (abs_add _ _ _ Hs Hx Hy) as [Fs Vs]. destruct (abs_mul _ _ _ H Fs Hn) as [Fr Vr].
  split; [done|]. by rewrite Vr, Vs.
Qed.

Lemma map_insert {A B} (f : A -> B) (l : list A) i x :
  map f (<[i := x]> l) = <[i := f x]> (map f l).
Proof. revert i. induction l as [|y l IH]; intros [|i]; cbn; f_equal; auto. Qed.

Lemma vindex_map {A B E E'} (f : A -> B) (l : list A) i a :
  vindex (E:=E) l i = Ok a -> vindex (E:=E') (map f l) i = Ok (f a).
Proof. intros H%U64Facts.vindex_ok. unfold vindex. by rewrite lookup_map, H. Qed.

Lemma vec_swap_map {A B E E'} (f : A -> B) (l l' : list A) a b :
  vec_swap (E:=E) l a b = Ok l' -> vec_swap (E:=E') (map f l) a b = Ok (map f l').
Proof.
  unfold vec_swap. rewrite !lookup_map.
  destruct (l !! a), (l !! b); cbn; intros H; try discriminate.
  injection H as <-. by rewrite !map_insert.
Qed.

Lemma elements_abs m : elements (abs_matrix m) = map (map abs_frac) (U64.elements m).
Proof. reflexivity. Qed.

Lemma height_abs m : height (abs_matrix m) = U64.height m.
Proof. unfold height, U64.height, abs_matrix. cbn. apply length_map. Qed.

Lemma width_abs m : width (abs_matrix m) = U64.width m.
Proof.
  unfold width, U64.width, abs_matrix. cbn.
  destruct (U64.elements m) as [|r rs]; cbn; [done|]. by rewrite length_map.
Qed.

Lemma check_xy_abs prof p m xy :
  U64.check_xy prof m xy = Ok tt -> check_xy p (abs_matrix m) xy = Ok tt.
Proof.
  destruct xy as [x y]. unfold U64.check_xy, check_xy. rewrite height_abs, width_abs.
  destruct (U64.height m <=? x); [by destruct (usize_sub prof (U64.height m) 1)|].
  destruct (U64.width m) as [w|]; [|done].
  destruct (w <=? y); [by destruct (usize_sub prof w 1) | done].
Qed.

Lemma bindM_Ok {A B} (c : M A) (k : A -> M B) m m' a :
  c m = (m', Ok a) -> bindM c k m = k a m'.
Proof. intros H. unfold bindM. by rewrite H. Qed.

Lemma finite_small_parts els c :
  finite_small (U64.mkMatrix els c) = true <->
  U64.cells_finite els = true /\ U64.finite c = true
  /\ U64.f64_exact (length els) = true /\ forallb (fun r => U64.f64_exact (length r)) els = true.
Proof.
  unfold finite_small, U64.small, U64.height. cbn. rewrite !andb_true_iff. tauto.
Qed.

(** A cell write keeps every cell finite and the shape. *)
Lemma finite_small_insert els c c' x y row v :
  finite_small (U64.mkMatrix els c) = true -> els !! x = Some row ->
  U64.finite v = true -> U64.finite c' = true ->
  finite_small (U64.mkMatrix (<[x := <[y := v]> row]> els) c') = true.
Proof.
  rewrite !finite_small_parts. intros (Hcells & _ & Hh & Hrows) Hx Hv Hc'.
  split_and!; [| done | by rewrite length_insert |].
  - unfold U64.cells_finite in *. apply U64Facts.forallb_insert; [done|].
    apply U64Facts.forallb_insert; [exact (U64Facts.forallb_lookup _ _ _ _ Hcells Hx) | done].
  - apply U64Facts.forallb_insert; [done|]. rewrite length_insert.
    exact (U64Facts.forallb_lookup _ _ _ _ Hrows Hx).
Qed.

Lemma finite_small_swap (m : U64.Matrix) a b x :
  finite_small m = true -> vec_swap (E:=U64.MatrixError) (U64.elements m) a b = Ok x ->
  finite_small (U64.mkMatrix x (U64.checksum m)) = true.
Proof.
  destruct m as [els c]. cbn [U64.elements U64.checksum].
  rewrite !finite_small_parts. intros (Hcells & Hc & Hh & Hrows) H.
  unfold vec_swap in H. destruct (els !! a) as [ra|] eqn:Ha, (els !! b) as [rb|] eqn:Hb;
    try discriminate. injection H as <-.
  split_and!; [by apply U64Facts.forallb_swap | done | by rewrite !length_insert |
               by apply U64Facts.forallb_swap].
Qed.

Section Refinement.
Variable from_f64 : nat -> U64.Fraction.
Hypothesis Hf : forall n, U64.f64_exact n = true -> from_f64 n = U64.usize_u64 n.
(** The profile of the exact model: its runs without a panic do not
    depend on it. *)
Variable p : profile.

Lemma get_abs (m m' : U64.Matrix) x y v :
  U64.get Debug (x, y) m = (m', Ok v) ->
  m' = m /\ get p (x, y) (abs_matrix m) = (abs_matrix m, Ok (abs_frac v)).
Proof.
  intros H. unfold U64.get in H. U64Facts.runM H. unfold U64.lift in H. injection H as <- H.
  split; [done|]. destruct x0.
  unfold get. rewrite (bindM_Ok _ _ _ _ _ (eq_refl : get_m (abs_matrix m) = _)).
  unfold bindM, lift. rewrite (check_xy_abs Debug p m (x, y) Hs), elements_abs.
  rewrite (vindex_map _ _ _ _ Hs0). by rewrite (vindex_map _ _ _ _ H).
Qed.

Lemma get_finite (m m' : U64.Matrix) xy v :
  finite_small m = true -> U64.get Debug xy m = (m', Ok v) -> U64.finite v = true.
Proof.
  destruct xy as [x y]. intros Hm H.
  destruct (U64Facts.get_ok_inv _ _ _ _ _ _ H) as [_ (row & Hx & Hy)].
  apply andb_true_iff in Hm as [Hm _]. apply andb_true_iff in Hm as [Hm _].
  exact (U64Facts.cells_finite_lookup _ _ _ _ _ Hm Hx Hy).
Qed.

Lemma set_abs (m m' : U64.Matrix) x y v :
  finite_small m = true -> U64.finite v = true ->
  U64.set from_f64 Debug (x, y) v m = (m', Ok tt) ->
  finite_small m' = true /\ set p (x, y) (abs_frac v) (abs_matrix m) = (abs_matrix m', Ok tt).
Proof.
  destruct m as [els c]. intros Hm Hv H. unfold U64.set in H. U64Facts.runM H.
  unfold U64.put_m in H. injection H as <-. destruct x0.
  pose proof Hm as (Hcells & Hc & Hh & Hrows)%finite_small_parts.
  pose proof (U64Facts.vindex_ok _ _ _ Hs0) as Hx. pose proof (U64Facts.vindex_ok _ _ _ Hs1) as Hy.
  cbn [U64.elements U64.checksum] in *.
  pose proof (lookup_lt_Some _ _ _ Hx) as Hx'. pose proof (lookup_lt_Some _ _ _ Hy) as Hy'.
  assert (Ex : U64.f64_exact x = true) by exact (U64Facts.small_index _ _ Hh Hx').
  assert (Ey : U64.f64_exact y = true).
  { exact (U64Facts.small_index _ _ (U64Facts.forallb_lookup _ _ _ _ Hrows Hx) Hy'). }
  rewrite !Hf in Hs3 by done.
  destruct (abs_usize x Ex) as [Fx Vx]. destruct (abs_usize y Ey) as [Fy Vy].
  pose proof (U64Facts.cells_finite_lookup _ _ _ _ _ Hcells Hx Hy) as Fn.
  destruct (abs_calc _ _ _ _ Hs2 Fx Fy Fn) as [Fa Va].
  destruct (abs_calc _ _ _ _ Hs3 Fx Fy Hv) as [Fb Vb].
  destruct (abs_sub _ _ _ Hs4 Fa Fb) as [Fd Vd].
  destruct (abs_add _ _ _ Hs5 Hc Fd) as [Fc' Vc'].
  split; [exact (finite_small_insert _ _ _ _ _ _ _ Hm Hx Hv Fc')|].
  unfold set. rewrite (bindM_Ok _ _ _ _ _ (eq_refl : get_m (abs_matrix (U64.mkMatrix els c)) = _)).
  unfold bindM at 1, lift at 1. rewrite (check_xy_abs Debug p (U64.mkMatrix els c) (x, y) Hs).
  unfold bindM at 1, lift at 1. rewrite elements_abs. cbn [U64.elements].
  rewrite (vindex_map _ _ _ _ Hs0).
  unfold bindM at 1, lift at 1. rewrite (vindex_map _ _ _ _ Hs1).
  unfold put_m, abs_matrix. cbn [U64.elements U64.checksum elements checksum].
  rewrite Vc', Vd, Va, Vb, Vx, Vy, !map_insert. reflexivity.
Qed.

Lemma swap_pass_abs (m m' : U64.Matrix) a b i :
  finite_small m = true ->
  U64.swap_pass from_f64 Debug a b i m = (m', Ok tt) ->
  finite_small m' = true /\ swap_pass a b i (abs_matrix m) = (abs_matrix m', Ok tt).
Proof.
  destruct m as [els c]. intros Hm H. unfold U64.swap_pass in H. U64Facts.runM H.
  unfold U64.put_m in H. injection H as <-.
  pose proof Hm as (Hcells & Hc & Hh & Hrows)%finite_small_parts.
  cbn [U64.elements U64.checksum] in *.
  pose proof (U64Facts.vindex_ok _ _ _ Hs) as Hq. pose proof (U64Facts.vindex_ok _ _ _ Hs0) as Hqi.
  pose proof (U64Facts.vindex_ok _ _ _ Hs1) as Hp. pose proof (U64Facts.vindex_ok _ _ _ Hs2) as Hpi.
  assert (Eq : U64.f64_exact b = true)
    by exact (U64Facts.small_index _ _ Hh (lookup_lt_Some _ _ _ Hq)).
  assert (Ep : U64.f64_exact a = true)
    by exact (U64Facts.small_index _ _ Hh (lookup_lt_Some _ _ _ Hp)).
  assert (Ei : U64.f64_exact i = true).
  { exact (U64Facts.small_index _ _ (U64Facts.forallb_lookup _ _ _ _ Hrows Hp)
             (lookup_lt_Some _ _ _ Hpi)). }
  rewrite !Hf in Hs4 by done.
  destruct (abs_usize a Ep) as [Fa Va]. destruct (abs_usize b Eq) as [Fb Vb].
  destruct (abs_usize i Ei) as [Fi Vi].
  pose proof (U64Facts.cells_finite_lookup _ _ _ _ _ Hcells Hq Hqi) as Fold.
  pose proof (U64Facts.cells_finite_lookup _ _ _ _ _ Hcells Hp Hpi) as Fnew.
  destruct (abs_calc _ _ _ _ Hs3 Fb Fi Fold) as [F1 V1].
  destruct (abs_calc _ _ _ _ Hs4 Fa Fi Fnew) as [F2 V2].
  destruct (abs_sub _ _ _ Hs5 F1 F2) as [Fd Vd].
  destruct (abs_add _ _ _ Hs6 Hc Fd) as [Fc' Vc'].
  split.
  - apply finite_small_parts. apply finite_small_parts in Hm. tauto.
  - unfold swap_pass, bindM, get_m, lift. rewrite !elements_abs. cbn [U64.elements].
    rewrite (vindex_map _ _ _ _ Hs), (vindex_map _ _ _ _ Hs0).
    rewrite (vindex_map _ _ _ _ Hs1), (vindex_map _ _ _ _ Hs2).
    unfold put_m, abs_matrix. cbn [U64.elements U64.checksum elements checksum].
    rewrite Vc', Vd, V1, V2, Va, Vb, Vi. reflexivity.
Qed.

Lemma for_each_abs (body : nat -> U64.M unit) (body' : nat -> M unit) l (m m' : U64.Matrix) :
  (forall i s s', finite_small s = true -> body i s = (s', Ok tt) ->
     finite_small s' = true /\ body' i (abs_matrix s) = (abs_matrix s', Ok tt)) ->
  finite_small m = true -> U64.for_each l body m = (m', Ok tt) ->
  finite_small m' = true /\ for_each l body' (abs_matrix m) = (abs_matrix m', Ok tt).
Proof.
  intros Hbody. revert m. induction l as [|i l IH]; intros m Hm H; cbn [U64.for_each for_each] in *.
  - unfold U64.ret in H. injection H as <-. done.
  - apply U64Facts.bindM_inv in H as (m1 & [] & H1 & H).
    destruct (Hbody _ _ _ Hm H1) as [Hm1 H1'].
    rewrite (bindM_Ok _ _ _ _ _ H1'). by apply IH.
Qed.

Lemma scale_row_abs row k sr :
  U64.scale_row Debug row k = Ok sr -> forallb U64.finite row = true -> U64.finite k = true ->
  forallb U64.finite sr = true /\ map abs_frac sr = map (fun n => n * abs_frac k)%Qc (map abs_frac row).
Proof.
  revert sr. induction row as [|v row IH]; intros sr H Hrow Hk; cbn in H.
  - injection H as <-. done.
  - cbn in Hrow. apply andb_true_iff in Hrow as [Hv Hrow].
    destruct (U64.mul Debug v k) as [w| |] eqn:Hw; cbn [obind] in H; try discriminate.
    destruct (U64.scale_row Debug row k) as [ws| |] eqn:Hws; cbn [obind] in H; try discriminate.
    injection H as <-. destruct (abs_mul _ _ _ Hw Hv Hk) as [Fw Vw].
    destruct (IH ws eq_refl Hrow Hk) as [Fws Vws].
    cbn. rewrite Fw, Fws, Vw, Vws. done.
Qed.

(** Every [operate] that a debug build runs to the end without a panic,
    on a matrix of finite cells and a finite checksum with indices below
    2^53, and with a finite scaler, gives the matrix whose values the
    exact model's [operate] gives. *)
Theorem operate_refines op (m m' : U64.Matrix) :
  finite_small m = true -> op_finite op = true ->
  U64.operate from_f64 Debug op m = (m', Ok tt) ->
  finite_small m' = true /\ operate p (abs_op op) (abs_matrix m) = (abs_matrix m', Ok tt).
Proof.
  intros Hm Hop H. destruct op as [a b | r k | k f t | | | |]; cbn [abs_op op_finite] in *.
  - unfold U64.operate in H. U64Facts.runM H.
    destruct (U64.height m <=? a) eqn:Ha.
    { exfalso. exact (U64Facts.row_index_error_not_ok _ _ _ _ _ H). }
    destruct (U64.height m <=? b) eqn:Hb.
    { exfalso. exact (U64Facts.row_index_error_not_ok _ _ _ _ _ H). }
    U64Facts.runM H. unfold U64.for_range in Hs1, H. destruct x1.
    pose proof (finite_small_swap _ _ _ _ Hm Hs) as Hm1.
    destruct (for_each_abs _ (swap_pass a b) _ _ _
      (fun i s s' Hs' Hb => swap_pass_abs s s' a b i Hs' Hb) Hm1 Hs1) as [Hst Hrun1].
    destruct (for_each_abs _ (swap_pass b a) _ _ _
      (fun i s s' Hs' Hb => swap_pass_abs s s' b a i Hs' Hb) Hst H) as [Hm' Hrun2].
    split; [done|]. unfold operate.
    rewrite (bindM_Ok _ _ _ _ _ (eq_refl : get_m (abs_matrix m) = _)). cbv beta.
    rewrite height_abs, Ha, Hb.
    unfold bindM at 1, lift at 1. rewrite elements_abs, (vec_swap_map _ _ _ _ _ Hs). cbv beta iota.
    unfold bindM at 1, put_m at 1. cbv beta iota.
    unfold bindM at 1, get_m at 1. cbv beta iota.
    unfold bindM at 1, lift at 1. cbn [elements]. rewrite (vindex_map _ _ _ _ Hs0). cbv beta iota.
    rewrite length_map. unfold for_range at 1.
    change (mkMatrix (map (map abs_frac) x) (checksum (abs_matrix m)))
      with (abs_matrix (U64.mkMatrix x (U64.checksum m))).
    unfold bindM at 1. rewrite Hrun1. cbv beta iota.
    unfold bindM at 1, get_m at 1. cbv beta iota.
    unfold bindM at 1, lift at 1. rewrite elements_abs, (vindex_map _ _ _ _ Hs2). cbv beta iota.
    rewrite length_map. exact Hrun2.
  - unfold U64.operate in H. U64Facts.runM H. unfold U64.for_range in H.
    set (body' := fun i => let* v := get p (r, i) in set p (r, i) (v * abs_frac k)%Qc).
    assert (Hbody : forall i s s', finite_small s = true ->
      U64.bindM (U64.get Debug (r, i)) (fun v =>
        U64.bindM (U64.lift (U64.mul Debug v k)) (fun w => U64.set from_f64 Debug (r, i) w)) s
      = (s', Ok tt) ->
      finite_small s' = true /\ body' i (abs_matrix s) = (abs_matrix s', Ok tt)).
    { intros i s s' Hs' Hb. apply U64Facts.bindM_inv in Hb as (s1 & v & Hg & Hb).
      pose proof (get_finite _ _ _ _ Hs' Hg) as Fv.
      destruct (get_abs _ _ _ _ _ Hg) as [-> Hg'].
      apply U64Facts.bindM_inv in Hb as (s2 & w & Hmul & Hb).
      unfold U64.lift in Hmul. injection Hmul as <- Hmul.
      destruct (abs_mul _ _ _ Hmul Fv Hop) as [Fw Vw].
      destruct (set_abs _ _ _ _ _ Hs' Fw Hb) as [Hs2 Hset].
      split; [done|]. unfold body'. rewrite (bindM_Ok _ _ _ _ _ Hg'). cbv beta.
      by rewrite <- Vw. }
    destruct (for_each_abs _ body' _ _ _ Hbody Hm H) as [Hm' Hrun].
    split; [done|]. unfold operate.
    rewrite (bindM_Ok _ _ _ _ _ (eq_refl : get_m (abs_matrix m) = _)). cbv beta.
    unfold bindM at 1, lift at 1. rewrite elements_abs, (vindex_map _ _ _ _ Hs). cbv beta iota.
    rewrite length_map. exact Hrun.
  - destruct m as [els c]. pose proof Hm as (Hcells & _)%finite_small_parts.
    unfold U64.operate in H. U64Facts.runM H. unfold U64.for_range in H.
    cbn [U64.elements] in Hs, Hs1.
    pose proof (U64Facts.vindex_ok _ _ _ Hs) as Hx.
    pose proof (U64Facts.forallb_lookup _ _ _ _ Hcells Hx) as Fx.
    destruct (scale_row_abs _ _ _ Hs0 Fx Hop) as [Fsr Vsr].
    set (sr' := map (fun n => n * abs_frac k)%Qc (map abs_frac x)).
    set (body' := fun i =>
      let* v := get p (t, i) in let* s := lift (vindex sr' i) in set p (t, i) (v + s)%Qc).
    assert (Hbody : forall i s s', finite_small s = true ->
      U64.bindM (U64.get Debug (t, i)) (fun v =>
        U64.bindM (U64.lift (vindex x0 i)) (fun s =>
          U64.bindM (U64.lift (U64.add Debug v s)) (fun w => U64.set from_f64 Debug (t, i) w))) s
      = (s', Ok tt) ->
      finite_small s' = true /\ body' i (abs_matrix s) = (abs_matrix s', Ok tt)).
    { intros i s s' Hs' Hb. apply U64Facts.bindM_inv in Hb as (s1 & v & Hg & Hb).
      pose proof (get_finite _ _ _ _ Hs' Hg) as Fv.
      destruct (get_abs _ _ _ _ _ Hg) as [-> Hg'].
      apply U64Facts.bindM_inv in Hb as (s2 & w & Hw & Hb).
      unfold U64.lift in Hw. injection Hw as <- Hw.
      apply U64Facts.bindM_inv in Hb as (s3 & u & Hadd & Hb).
      unfold U64.lift in Hadd. injection Hadd as <- Hadd.
      pose proof (U64Facts.forallb_lookup _ _ _ _ Fsr (U64Facts.vindex_ok _ _ _ Hw)) as Fw.
      destruct (abs_add _ _ _ Hadd Fv Fw) as [Fu Vu].
      destruct (set_abs _ _ _ _ _ Hs' Fu Hb) as [Hs3 Hset].
      split; [done|]. unfold body'. rewrite (bindM_Ok _ _ _ _ _ Hg'). cbv beta.
      unfold bindM at 1, lift at 1. unfold sr'. rewrite <- Vsr, (vindex_map _ _ _ _ Hw).
      cbv beta iota. by rewrite <- Vu. }
    destruct (for_each_abs _ body' _ _ _ Hbody Hm H) as [Hm' Hrun].
    split; [done|]. unfold operate.
    rewrite (bindM_Ok _ _ _ _ _ (eq_refl : get_m (abs_matrix (U64.mkMatrix els c)) = _)). cbv beta.
    unfold bindM at 1, lift at 1. rewrite !elements_abs. cbn [U64.elements].
    rewrite (vindex_map _ _ _ _ Hs). cbv beta iota zeta.
    unfold bindM at 1, lift at 1. rewrite (vindex_map _ _ _ _ Hs1). cbv beta iota.
    rewrite length_map. exact Hrun.
  - unfold U64.operate, U64.ret in H. injection H as <-. done.
  - unfold U64.operate, U64.ret in H. injection H as <-. done.
  - unfold U64.operate, U64.ret in H. injection H as <-. done.
  - unfold U64.operate, U64.ret in H. injection H as <-. done.
Qed.

Lemma row_checksum_abs x i row acc acc' :
  U64.f64_exact x = true -> U64.f64_exact (i + length row) = true ->
  forallb U64.finite row = true -> U64.finite acc = true ->
  U64.row_checksum from_f64 Debug x i row acc = Ok acc' ->
  U64.finite acc' = true /\ abs_frac acc' = row_checksum x i (map abs_frac row) (abs_frac acc).
Proof.
  intros Ex. revert i acc. induction row as [|n row IH]; intros i acc Ei Hrow Hacc H; cbn in H.
  - injection H as <-. done.
  - cbn in Hrow. apply andb_true_iff in Hrow as [Fn Hrow].
    destruct (U64.calc_checksum Debug (from_f64 x) (from_f64 i) n) as [d| |] eqn:Hd;
      cbn [obind] in H; try discriminate.
    destruct (U64.add Debug acc d) as [acc1| |] eqn:Hacc1; cbn [obind] in H; try discriminate.
    assert (Ei' : U64.f64_exact i = true) by (apply (U64Facts.small_index _ _ Ei); cbn; lia).
    rewrite !Hf in Hd by done.
    destruct (abs_usize x Ex) as [Fx Vx]. destruct (abs_usize i Ei') as [Fi Vi].
    destruct (abs_calc _ _ _ _ Hd Fx Fi Fn) as [Fd Vd].
    destruct (abs_add _ _ _ Hacc1 Hacc Fd) as [F1 V1].
    cbn [map row_checksum]. rewrite <- Vx, <- Vi, <- Vd, <- V1.
    apply IH; [| done | done | exact H]. cbn in Ei. by replace (S i + length row) with (i + S (length row)) by lia.
Qed.

(** Every [insert_row] that a debug build runs to the end without a panic,
    with finite cells and indices below 2^53, gives the matrix whose values
    the exact model's [insert_row] gives. *)
Theorem insert_row_refines (m m' : U64.Matrix) row :
  finite_small m = true -> forallb U64.finite row = true ->
  U64.f64_exact (length row) = true -> U64.f64_exact (S (U64.height m)) = true ->
  U64.insert_row from_f64 Debug row m = (m', Ok tt) ->
  finite_small m' = true
  /\ insert_row (map abs_frac row) (abs_matrix m) = (abs_matrix m', Ok tt).
Proof.
  destruct m as [els c]. intros Hm Hrow Elen Eh H.
  pose proof Hm as (Hcells & Hc & Hh & Hrows)%finite_small_parts.
  unfold U64.insert_row in H. U64Facts.runM H. unfold U64.height in *.
  cbn [U64.elements U64.checksum] in *.
  destruct (row_checksum_abs _ 0 row c x Hh Elen Hrow Hc Hs) as [Fc Vc].
  assert (Hm' : finite_small (U64.mkMatrix (els ++ [row]) x) = true).
  { apply finite_small_parts. unfold U64.cells_finite. rewrite !forallb_app, length_app.
    cbn. rewrite Hrow, Elen, Fc, Nat.add_1_r. unfold U64.cells_finite in Hcells.
    rewrite Hcells, Hrows. by split_and!. }
  unfold insert_row, bindM, get_m, put_m, lift, height, abs_matrix.
  cbn [elements checksum U64.elements U64.checksum]. rewrite length_map, <- Vc.
  unfold U64.width, U64.put_m, U64.lift in H. cbn [U64.elements U64.checksum] in H.
  destruct els as [|r0 rs].
  - injection H as <-. split; [done|]. reflexivity.
  - destruct (length r0 =? length row) eqn:Hw; [|discriminate].
    injection H as <-. split; [done|].
    change (width _) with (Some (length (map abs_frac r0))).
    rewrite !length_map. cbv beta iota. rewrite Hw. do 2 f_equal. cbn [U64.elements]. cbn [map app]. by rewrite map_app.
Qed.

End Refinement.

(** C5 (corrected): in a debug build, two successive [swap_rows(a, b)]
    calls that both return without a panic give back the original elements
    and a checksum of the original value. *)
Theorem swap_rows_twice_restores (from_f64 : nat -> U64.Fraction)
    (Hf : forall n, U64.f64_exact n = true -> from_f64 n = U64.usize_u64 n)
    (m m1 m2 : U64.Matrix) a b :
  U64.cells_finite (U64.elements m) = true -> U64.finite (U64.checksum m) = true ->
  U64.small m = true ->
  U64.operate from_f64 Debug (U64.SwapRows a b) m = (m1, Ok tt) ->
  U64.operate from_f64 Debug (U64.SwapRows a b) m1 = (m2, Ok tt) ->
  U64.elements m2 = U64.elements m
  /\ (U64.value (U64.checksum m2) == U64.value (U64.checksum m))%Q.
Proof.
  intros Hcells Hc Hsmall H1 H2.
  destruct (U64Facts.swap_once from_f64 Hf m m1 a b H1 Hcells Hc Hsmall)
    as (ra & rb & Hra & Hrb & _ & He1 & Hc1 & Hv1).
  destruct (U64Facts.swap_keeps m m1 a b ra rb Hra Hrb He1 Hcells Hsmall) as [Hcells1 Hsmall1].
  destruct (U64Facts.swap_once from_f64 Hf m1 m2 a b H2 Hcells1 Hc1 Hsmall1)
    as (ra' & rb' & Hra' & Hrb' & _ & He2 & _ & Hv2).
  destruct (swap_lookup (U64.elements m) a b ra rb Hra Hrb) as [Ha2 Hb2].
  rewrite He1, Ha2 in Hra'. injection Hra' as <-.
  rewrite He1, Hb2 in Hrb'. injection Hrb' as <-.
  split.
  - rewrite He2, He1. by apply swap_swap.
  - by rewrite Hv2, Hv1.
Qed.

Lemma swap_rows_twice_restores_witness :
  let m := U64.mkMatrix [[U64.from_u64 1; U64.from_u64 2]; [U64.from_u64 3; U64.from_u64 4]]
                        (U64.from_u64 13) in
  let m1 := fst (U64.operate U64.usize_u64 Debug (U64.SwapRows 0 1) m) in
  let m2 := fst (U64.operate U64.usize_u64 Debug (U64.SwapRows 0 1) m1) in
  U64.elements m2 = U64.elements m
  /\ (U64.value (U64.checksum m2) == U64.value (U64.checksum m))%Q.
Proof.
  intros m m1 m2.
  apply (swap_rows_twice_restores U64.usize_u64 (fun n _ => eq_refl) m m1 m2 0 1);
    vm_compute; reflexivity.
Defined.

(** C5 (corrected): the matrix [[u64::MAX], [1]], built by [insert_row]
    with checksum 1, cannot be swapped back and forth: in a debug build the
    first [swap_rows(0, 1)] panics when the checksum [1] grows by
    [u64::MAX]; in a release build that sum wraps to 0 and two swaps end
    with the checksum [-u64::MAX] instead of 1. *)
Lemma swap_rows_overflow :
  let m := U64.mkMatrix [[U64.from_u64 U64.MAX]; [U64.from_u64 1]] (U64.from_u64 1) in
  U64.bindM (U64.insert_row U64.usize_u64 Debug [U64.from_u64 U64.MAX])
            (fun _ => U64.insert_row U64.usize_u64 Debug [U64.from_u64 1]) U64.new = (m, Ok tt)
  /\ snd (U64.operate U64.usize_u64 Debug (U64.SwapRows 0 1) m) = Panic
  /\ U64.bindM (U64.operate U64.usize_u64 Release (U64.SwapRows 0 1))
               (fun _ => U64.operate U64.usize_u64 Release (U64.SwapRows 0 1)) m
     = (U64.mkMatrix (U64.elements m) (U64.Rational U64.Minus (U64.mkRatio U64.MAX 1)), Ok tt).
Proof. split_and!; vm_compute; reflexivity. Qed.

(** C6 (corrected): in a debug build, [replace_row(k, r, r)] on a row [r]
    of finite cells, with a finite scaler [k], that returns without a panic
    replaces row [r] only, by a row of the same length whose cell [j] holds
    [(1 + k) * v] for the original cell value [v]. *)
Theorem replace_row_with_self_exact (from_f64 : nat -> U64.Fraction) (m m' : U64.Matrix) k r row :
  U64.cells_finite (U64.elements m) = true -> U64.finite k = true ->
  U64.elements m !! r = Some row ->
  U64.operate from_f64 Debug (U64.ReplaceWithMultiple k r r) m = (m', Ok tt) ->
  exists row', U64.elements m' = <[r := row']> (U64.elements m) /\ length row' = length row
    /\ forall j v, row !! j = Some v -> exists v', row' !! j = Some v' /\ U64.finite v' = true
         /\ (U64.value v' == (1 + U64.value k) * U64.value v)%Q.
Proof. exact (U64Facts.replace_self_run from_f64 m m' k r row). Qed.

Lemma replace_row_with_self_exact_witness :
  let m := U64.mkMatrix [[U64.from_u64 1; U64.from_u64 2]; [U64.from_u64 3; U64.from_u64 4]]
                        (U64.from_u64 13) in
  let k := U64.from_u64 2 in
  let m' := fst (U64.operate U64.usize_u64 Debug (U64.ReplaceWithMultiple k 1 1) m) in
  exists row', U64.elements m' = <[1 := row']> (U64.elements m) /\ length row' = 2
    /\ forall j v, [U64.from_u64 3; U64.from_u64 4] !! j = Some v ->
         exists v', row' !! j = Some v' /\ U64.finite v' = true
         /\ (U64.value v' == (1 + U64.value k) * U64.value v)%Q.
Proof.
  intros m k m'.
  apply (replace_row_with_self_exact U64.usize_u64 m m' k 1 [U64.from_u64 3; U64.from_u64 4]);
    vm_compute; reflexivity.
Defined.

(** C6 (corrected): the command [r 18446744073709551615 0 0] parses to
    [ReplaceWithMultiple(u64::MAX, 0, 0)]; on the matrix [[2]], built by
    [insert_row], the snapshot [2 * u64::MAX] overflows: a debug build
    panics, and a release build leaves the cell 0 instead of
    [(1 + u64::MAX) * 2]. *)
Lemma replace_row_with_self_overflow :
  let m := U64.mkMatrix [[U64.from_u64 2]] (U64.from_u64 0) in
  let k := U64.from_u64 U64.MAX in
  try_from "r 18446744073709551615 0 0" = Ok (abs_op (U64.ReplaceWithMultiple k 0 0))
  /\ U64.insert_row U64.usize_u64 Debug [U64.from_u64 2] U64.new = (m, Ok tt)
  /\ snd (U64.operate U64.usize_u64 Debug (U64.ReplaceWithMultiple k 0 0) m) = Panic
  /\ U64.operate U64.usize_u64 Release (U64.ReplaceWithMultiple k 0 0) m
     = (U64.mkMatrix [[U64.from_u64 0]] (U64.from_u64 0), Ok tt).
Proof. split_and!; [eval_eq | vm_compute; reflexivity ..]. Qed.
